(** * twinnerDownloader: the pyramid tile engine of [twinnerDownloader.py]

    A shallow embedding of class [Folder] (level calculation, tile download
    into the cache directory, tile joining) together with the few Python,
    [requests] and PIL primitives it calls, and the properties of the
    engine that follow from the code. *)

From Stdlib Require Import ZArith Lia Ascii String.
From stdpp Require Import base option list gmap strings pretty.

Open Scope Z_scope.

(** ** Python run-time primitives used by the script *)

Module Py.

(** Exceptions the modelled statements can raise. *)
Inductive exn : Type :=
| OverflowError          (* int too large for a float *)
| ZeroDivisionError      (* [a / 0] *)
| IndexError             (* list index out of range *)
| ValueError             (* [Image.new] with a negative size *)
| ConnectionError        (* [session.get] got no response *)
| FileNotFoundError      (* [Image.open] on a missing path *)
| UnidentifiedImageError (* [Image.open] on bytes that are no image *).

(** Outcome of running a piece of the script: it returns, it raises, or
    the bounded unrolling of a [while] loop was too short. *)
Inductive result (A : Type) : Type :=
| Ok (a : A)
| Raised (e : exn)
| OutOfFuel.
Arguments Ok {A} a.
Arguments Raised {A} e.
Arguments OutOfFuel {A}.

#[global] Instance result_ret : MRet result := fun _ a => Ok a.
#[global] Instance result_bind : MBind result := fun _ _ k r =>
  match r with
  | Ok a => k a
  | Raised e => Raised e
  | OutOfFuel => OutOfFuel
  end.
#[global] Instance result_fmap : FMap result := fun _ _ g r =>
  match r with
  | Ok a => Ok (g a)
  | Raised e => Raised e
  | OutOfFuel => OutOfFuel
  end.

(** *** binary64 floats

    A finite float is [mant * 2 ^ expo].  Python turns an [int] into a
    float ([int * float]) and divides two [int]s ([int / int]) with
    correct rounding to 53 significant bits, ties to even; both raise
    [OverflowError] beyond the largest finite float. *)
Record float : Type := Float { mant : Z; expo : Z }.

(** [n / d] rounded to the nearest integer, ties to even ([0 <= n], [0 < d]). *)
Definition rne (n d : Z) : Z :=
  let q := n / d in
  match 2 * (n mod d) ?= d with
  | Lt => q
  | Gt => q + 1
  | Eq => if Z.even q then q else q + 1
  end.

(** [floor (log2 (n / d))] for [0 < n], [0 < d]. *)
Definition floor_log2_ratio (n d : Z) : Z :=
  let k := Z.log2 n - Z.log2 d in
  let above := if 0 <=? k then d * 2 ^ k <=? n else d <=? n * 2 ^ (- k) in
  if above then k else k - 1.

(** The float nearest to [n / d] for [0 < n], [0 < d]; [None] on overflow.
    Below [2 ^ -1022] the spacing stays [2 ^ -1074] (subnormals), so tiny
    quotients round to zero. *)
Definition round_ratio (n d : Z) : option float :=
  let e := Z.max (floor_log2_ratio n d - 52) (-1074) in
  let m := if 0 <=? e then rne n (d * 2 ^ e) else rne (n * 2 ^ (- e)) d in
  if 1024 <=? Z.log2 m + e then None else Some (Float m e).

Definition round_signed (n d : Z) : option float :=
  if n =? 0 then Some (Float 0 0)
  else f ← round_ratio (Z.abs n) (Z.abs d);
       Some (Float (Z.sgn n * Z.sgn d * mant f) (expo f)).

(** [float(n)], as done for the [int] operand of [n * 0.5]. *)
Definition int_to_float (n : Z) : result float :=
  match round_signed n 1 with
  | Some f => Ok f
  | None => Raised OverflowError
  end.

(** [f * 0.5]: exact, the operand being zero or at least 1 in magnitude. *)
Definition mul_half (f : float) : float := Float (mant f) (expo f - 1).

(** [n * 0.5] for an [int] [n]. *)
Definition int_mul_half (n : Z) : result float := mul_half <$> int_to_float n.

(** [a / b] for two [int]s (true division). *)
Definition truediv (a b : Z) : result float :=
  if b =? 0 then Raised ZeroDivisionError
  else match round_signed a b with
       | Some f => Ok f
       | None => Raised OverflowError
       end.

(** [math.ceil(f)]: the least [int] not below [f]. *)
Definition math_ceil (f : float) : Z :=
  if 0 <=? expo f then mant f * 2 ^ expo f
  else - ((- mant f) / 2 ^ (- expo f)).

(** [range(n)]: [0, 1, ..., n - 1], empty when [n <= 0]. *)
Definition range (n : Z) : list Z := Z.of_nat <$> seq 0 (Z.to_nat n).

(** [l[i]] with Python's negative indices. *)
Definition index {A : Type} (l : list A) (i : Z) : result A :=
  let n := Z.of_nat (length l) in
  let j := if i <? 0 then i + n else i in
  if (j <? 0) || (n <=? j) then Raised IndexError
  else match l !! Z.to_nat j with
       | Some a => Ok a
       | None => Raised IndexError
       end.

End Py.
Export Py.

(** ** Strings, paths, the cache directory and the remote host *)

Abbreviation bytes := (list Byte.byte).

Module Os.

(** ["{}".format(n)] for an [int]: its decimal numeral. *)
Definition str (n : Z) : string := pretty n.

Definition starts_with_sep (s : string) : bool :=
  match s with
  | String c _ => bool_decide (c = "/"%char)
  | EmptyString => false
  end.

Definition ends_with_sep (s : string) : bool := starts_with_sep (String.rev s).

(** [os.path.join(a, b)] (POSIX). *)
Definition path_join (a b : string) : string :=
  if starts_with_sep b then b
  else if bool_decide (a = "") || ends_with_sep a then a +:+ b
  else a +:+ "/" +:+ b.

End Os.

(** What one run can observe and change: the regular files on disk (the
    cache directory holds nothing else) and the GET requests sent so far,
    oldest first. *)
Record world : Type := World {
  files : gmap string bytes;
  requests : list string
}.

(** [os.path.exists(path)] *)
Definition exists_ (path : string) (w : world) : bool :=
  bool_decide (is_Some (files w !! path)).

(** [open(path, "wb")]: the file is created, or truncated when it is there. *)
Definition open_wb (path : string) (w : world) : world :=
  World (<[path := []]> (files w)) (requests w).

(** [file.write(blob)] on the file opened at [path], flushed by the end of
    the [with] block. *)
Definition file_write (path : string) (blob : bytes) (w : world) : world :=
  World (<[path := default [] (files w !! path) ++ blob]> (files w)) (requests w).

(** A response of the remote host. *)
Record Response : Type := { status_code : Z; content : bytes }.

(** ** PIL images *)

Module Image.

Definition rgb : Type := Z * Z * Z.

Record t : Type := { size : Z * Z; getpixel : Z -> Z -> rgb }.

(** A rectangle of pixels by its origin and extent. *)
Record rect : Type := Rect { originX : Z; originY : Z; rwidth : Z; rheight : Z }.

Definition in_rect (r : rect) (i j : Z) : bool :=
  (originX r <=? i) && (i <? originX r + rwidth r) &&
  (originY r <=? j) && (j <? originY r + rheight r).

Definition area (r : rect) : Z := rwidth r * rheight r.

(** [Image.new("RGB", size)]: a black image. *)
Definition new (size : Z * Z) : result t :=
  if (size.1 <? 0) || (size.2 <? 0) then Raised ValueError
  else Ok {| size := size; getpixel := fun _ _ => (0, 0, 0) |}.

(** The part of a destination of size [dst] written by pasting a source
    of size [src] with its upper left corner at [box]: the source
    rectangle clipped to the destination. *)
Definition paste_region (dst src : Z * Z) (box : Z * Z) : rect :=
  let left := Z.max box.1 0 in
  let top := Z.max box.2 0 in
  Rect left top (Z.min (box.1 + src.1) dst.1 - left)
                (Z.min (box.2 + src.2) dst.2 - top).

(** [dst.paste(src, box)] with a 2-tuple [box]. *)
Definition paste (dst src : t) (box : Z * Z) : t :=
  {| size := size dst;
     getpixel := fun i j =>
       if in_rect (paste_region (size dst) (size src) box) i j
       then getpixel src (i - box.1) (j - box.2)
       else getpixel dst i j |}.

End Image.

(** ** class Folder *)

(** One entry of [self.levels]: [{"width": ..., "height": ...}]. *)
Record level : Type := Level { width : Z; height : Z }.

#[global] Instance level_eq_dec : EqDecision level.
Proof. solve_decision. Defined.

(** Runs [body] for the elements of [l] in order, stopping at the first
    one that raises: a [for] loop over [l]. *)
Fixpoint for_each {A S : Type} (l : list A) (body : A -> S -> result S)
    (s : S) : result S :=
  match l with
  | [] => Ok s
  | a :: l' => s' ← body a s; for_each l' body s'
  end.

Module Folder.

Record t : Type := {
  path : string;
  tile_size : Z;
  format : string;
  force_download : bool;
  levels : list level
}.

(** The [while] loop of [__init__], unrolled at most [fuel] times. *)
Fixpoint calculate_levels (fuel : nat) (width height : Z)
    (levels : list level) : result (list level) :=
  if (1 <? width) || (1 <? height) then
    match fuel with
    | O => OutOfFuel
    | S fuel' =>
        let levels := levels ++ [Level width height] in
        width ← math_ceil <$> int_mul_half width;
        height ← math_ceil <$> int_mul_half height;
        calculate_levels fuel' width height levels
    end
  else Ok levels.

(** Halving brings a dimension down to 1 within [log2_up] rounds, so this
    many unrollings always suffice (see [calculate_levels_total]). *)
Definition rounds (width height : Z) : nat :=
  Z.to_nat (Z.max (Z.log2_up width) (Z.log2_up height)).

Definition __init__ (path : string) (width height tile_size : Z)
    (format : string) (force_download : bool) : result t :=
  levels ← calculate_levels (rounds width height) width height [];
  Ok {| path := path; tile_size := tile_size; format := format;
        force_download := force_download; levels := reverse levels |}.

(** [columns] and [rows] as both [download] and [join_tiles] compute them. *)
Definition grid (self : t) (level : level) : result (Z * Z) :=
  columns ← math_ceil <$> truediv (width level) (tile_size self);
  rows ← math_ceil <$> truediv (height level) (tile_size self);
  Ok (columns, rows).

Definition tile_url (self : t) (level_index x y : Z) : string :=
  path self +:+ "/" +:+ Os.str (level_index + 1) +:+ "/" +:+
  Os.str x +:+ "_" +:+ Os.str y +:+ "." +:+ format self.

Definition tile_path (self : t) (image_folder : string) (x y : Z) : string :=
  Os.path_join image_folder
    (Os.str x +:+ "_" +:+ Os.str y +:+ "." +:+ format self).

(** The canvas region tile [(x, y)] of full size covers when pasted. *)
Definition tile_rect (self : t) (level : level) (x y : Z) : Image.rect :=
  Image.paste_region (width level, height level)
    (tile_size self, tile_size self) (x * tile_size self, y * tile_size self).

Definition addresses (columns rows : Z) : list (Z * Z) :=
  x ← range columns; y ← range rows; [(x, y)].

(** The statements of the block
    [with open(outPath, "wb") as file: file.write(blob)], in order. *)
Definition write_block (outPath : string) (blob : bytes) : list (world -> world) :=
  [open_wb outPath; file_write outPath blob].

(** Running the statements of a block one after the other. *)
Definition run_block (block : list (world -> world)) (w : world) : world :=
  foldl (fun w stmt => stmt w) w block.

(** The world after each statement of a block run from [w]: the states in
    which a run that is stopped midway leaves the disk. *)
Fixpoint worlds_after (block : list (world -> world)) (w : world) : list world :=
  match block with
  | [] => []
  | stmt :: block' => stmt w :: worlds_after block' (stmt w)
  end.

(** The worlds the [with open(outPath, "wb")] block goes through, one
    per statement: after [open], and after [write] and the close. *)
Definition write_trace (outPath : string) (blob : bytes) (w : world) : list world :=
  worlds_after (write_block outPath blob) w.

Section Engine.

(** The remote host: what a GET of a url answers, given the requests it
    has already seen ([None]: no response at all). *)
Variable remote : list string -> string -> option Response.

(** PIL's decoder of tile bytes ([None]: not an image). *)
Variable decode : bytes -> option Image.t.

(** [session.get(url)] *)
Definition session_get (url : string) (w : world) : result (Response * world) :=
  let w' := World (files w) (requests w ++ [url]) in
  match remote (requests w) url with
  | Some r => Ok (r, w')
  | None => Raised ConnectionError
  end.

(** The body of the inner loop of [download], for tile [(x, y)]. *)
Definition download_tile (self : t) (level_index : Z) (image_folder : string)
    (x y : Z) (w : world) : result world :=
  let url := tile_url self level_index x y in
  let outPath := tile_path self image_folder x y in
  if negb (exists_ outPath w) || force_download self then
    '(r, w) ← session_get url w;
    let blob := content r in
    Ok (run_block (write_block outPath blob) w)
  else Ok w.

Definition download (self : t) (level_index : Z) (image_folder : string)
    (w : world) : result world :=
  level ← index (levels self) level_index;
  columns ← math_ceil <$> truediv (width level) (tile_size self);
  rows ← math_ceil <$> truediv (height level) (tile_size self);
  for_each (range columns) (fun x =>
    for_each (range rows) (fun y =>
      download_tile self level_index image_folder x y)) w.

(** [Image.open(path)], decoded. *)
Definition image_open (path : string) (w : world) : result Image.t :=
  match files w !! path with
  | None => Raised FileNotFoundError
  | Some blob =>
      match decode blob with
      | Some im => Ok im
      | None => Raised UnidentifiedImageError
      end
  end.

(** The body of the inner loop of [join_tiles]. *)
Definition join_tile (self : t) (image_folder : string) (w : world)
    (x y : Z) (result : Image.t) : Py.result Image.t :=
  let out_path := tile_path self image_folder x y in
  src_image ← image_open out_path w;
  Ok (Image.paste result src_image (x * tile_size self, y * tile_size self)).

Definition join_tiles (self : t) (level_index : Z) (image_folder : string)
    (w : world) : result Image.t :=
  level ← index (levels self) level_index;
  columns ← math_ceil <$> truediv (width level) (tile_size self);
  rows ← math_ceil <$> truediv (height level) (tile_size self);
  result ← Image.new (width level, height level);
  for_each (range columns) (fun x =>
    for_each (range rows) (fun y =>
      join_tile self image_folder w x y)) result.

End Engine.

End Folder.

(** ** Notions the properties are stated with *)

(** [ceil (a / b)] on integers. *)
Definition ceil_div (a b : Z) : Z := - ((- a) / b).

(** The levels in the order the loop appends them, largest first: each is
    kept while a dimension exceeds 1 and the next is its ceiling-half. *)
Fixpoint halving (w h : Z) (ls : list level) : Prop :=
  match ls with
  | [] => w <= 1 /\ h <= 1
  | l :: ls' =>
      (1 < w \/ 1 < h) /\ l = Level w h /\
      halving (ceil_div w 2) (ceil_div h 2) ls'
  end.

Definition Zsum (l : list Z) : Z := foldr Z.add 0 l.

(** Total area of the full-tile rectangles of a [columns] by [rows] grid. *)
Definition grid_area (self : Folder.t) (level : level) (columns rows : Z) : Z :=
  Zsum ((fun a => Image.area (Folder.tile_rect self level a.1 a.2))
          <$> Folder.addresses columns rows).

(** ** A small pyramid to run the engine on *)

Module Demo.

(** A 3 x 2 image cut into tiles of 2: the levels are 2 x 1 and 3 x 2. *)
Definition folder : Folder.t :=
  {| Folder.path := "http://host/scene/page_files"; Folder.tile_size := 2;
     Folder.format := "jpg"; Folder.force_download := false;
     Folder.levels := [Level 2 1; Level 3 2] |}.

Definition forced : Folder.t :=
  {| Folder.path := "http://host/scene/page_files"; Folder.tile_size := 2;
     Folder.format := "jpg"; Folder.force_download := true;
     Folder.levels := [Level 2 1; Level 3 2] |}.

Definition cache : string := "/tmp/twinnerdl/page_LVL1".

Definition tile_bytes : bytes := [Byte.xff; Byte.xd8; Byte.x01].
Definition stale_bytes : bytes := [Byte.xff; Byte.xd8; Byte.x00].
Definition not_found_page : bytes := [Byte.x34; Byte.x30; Byte.x34].

(** A host that serves every tile. *)
Definition host (_ : list string) (_ : string) : option Response :=
  Some {| status_code := 200; content := tile_bytes |}.

(** A host that has no tile: every GET is answered 404 with an error page. *)
Definition host_404 (_ : list string) (_ : string) : option Response :=
  Some {| status_code := 404; content := not_found_page |}.

(** A decoder that takes what starts with the JPEG marker for a white
    2 x 2 tile. *)
Definition decoder (blob : bytes) : option Image.t :=
  match blob with
  | Byte.xff :: Byte.xd8 :: _ =>
      Some {| Image.size := (2, 2); Image.getpixel := fun _ _ => (255, 255, 255) |}
  | _ => None
  end.

Definition empty_world : world := World ∅ [].

Definition cached_world : world :=
  World {[ "/tmp/twinnerdl/page_LVL1/0_0.jpg" := stale_bytes;
           "/tmp/twinnerdl/page_LVL1/1_0.jpg" := stale_bytes ]} [].

End Demo.

(** ** The script around the class *)

Module Str.

(** [s.find(sub)]: the lowest index at which [sub] occurs in [s], or -1. *)
Fixpoint find (s sub : string) : Z :=
  if String.prefix sub s then 0
  else match s with
       | EmptyString => -1
       | String _ s' => let k := find s' sub in if k =? -1 then -1 else k + 1
       end.

(** The scan of [s.replace(old, new)] for a non-empty [old]: [skip] counts
    the characters of a match still to be passed over. *)
Fixpoint replace_go (old new : string) (skip : nat) (s : string) : string :=
  match s with
  | EmptyString => EmptyString
  | String ch s' =>
      match skip with
      | S k => replace_go old new k s'
      | O => if String.prefix old s
             then new +:+ replace_go old new (String.length old - 1) s'
             else String ch (replace_go old new 0 s')
      end
  end.

(** With an empty [old], [new] goes before every character and at the end. *)
Fixpoint intersperse (new s : string) : string :=
  match s with
  | EmptyString => new
  | String ch s' => new +:+ String ch (intersperse new s')
  end.

(** [s.replace(old, new)] *)
Definition replace (old new s : string) : string :=
  if bool_decide (old = "") then intersperse new s else replace_go old new 0 s.

End Str.

Module Args.

(** The parsed command line. *)
Record t : Type := {
  url : string;
  out : string;
  format : option string;
  name : option string;
  level : option Z;
  forceDownload : bool;
  verbose : bool
}.

End Args.

Module Metadata.

(** A [pyramidMetadata] object of the scene configuration. *)
Record t : Type := {
  width : Z;
  height : Z;
  tileSize : Z;
  format : string
}.

End Metadata.

(** An entry of [sceneconfig["viewModes"]["items"]] with its keys present:
    one with ["pageFolders"], or one with ["pyramidFolder"] only. *)
Inductive item : Type :=
| Pages (pyramidMetadata : Metadata.t) (pageFolders : list string)
| Single (pyramidMetadata : Metadata.t) (pyramidFolder : string).

(** A run of the script: the disk and the network of [world], and the lines
    printed so far. *)
Record process : Type := Process { disk : world; stdout : list string }.

Definition print (line : string) (p : process) : process :=
  Process (disk p) (stdout p ++ [line]).

Module Script.

(** [out_file_name] of [do_item_folder]. *)
Definition out_file_name (folder_name : string) (level_index : Z) : string :=
  Str.replace "/" "_" (Str.replace "_files" "" folder_name) +:+ "_LVL" +:+
  Os.str level_index.

Section Script.

(** [str.casefold] *)
Variable casefold : string -> string.

(** [json.dumps] of a metadata object. *)
Variable json_dumps : Metadata.t -> string.

(** [tempfile.gettempdir()] *)
Variable tempdir : string.

Variable remote : list string -> string -> option Response.
Variable decode : bytes -> option Image.t.

(** PIL's encoder for a file name, picked by its extension ([None]: no
    format is known for it). *)
Variable encode : string -> Image.t -> option bytes.

(** [temp_dir] of [do_item_folder]. *)
Definition temp_dir (folder_name : string) (level_index : Z) : string :=
  Os.path_join (Os.path_join tempdir "twinnerdl")
    (out_file_name folder_name level_index).

(** [image.save(out, quality=90, optimize=True)] *)
Definition image_save (image : Image.t) (out : string) (w : world) : result world :=
  match encode out image with
  | Some blob => Ok (World (<[out := blob]> (files w)) (requests w))
  | None => Raised ValueError
  end.

(** The test that makes [do_item_folder] skip a folder. *)
Definition filtered_out (args : Args.t) (folder_name : string) : bool :=
  match Args.name args with
  | Some name => Str.find (casefold folder_name) (casefold name) =? -1
  | None => false
  end.

(** The directories [os.makedirs] creates are not part of [world]: the
    call, with its [FileExistsError] caught, changes nothing here. *)
Definition do_item_folder (args : Args.t) (widget_url : string)
    (metadata : Metadata.t) (folder_name : string) (p : process) : result process :=
  if filtered_out args folder_name then
    if Args.verbose args
    then Ok (print ("Skipping " +:+ folder_name +:+ " because folder name filter") p)
    else Ok p
  else
    let folder_url := widget_url +:+ folder_name in
    folder ← Folder.__init__ folder_url (Metadata.width metadata)
               (Metadata.height metadata) (Metadata.tileSize metadata)
               (Metadata.format metadata) (Args.forceDownload args);
    let format := default (Folder.format folder) (Args.format args) in
    let level_index :=
      default (Z.of_nat (length (Folder.levels folder)) - 1) (Args.level args) in
    let out_file_name := out_file_name folder_name level_index in
    let temp_dir := temp_dir folder_name level_index in
    let p := print "" p in
    let p := print ("Folder: " +:+ folder_name) p in
    let p :=
      if Args.verbose args then
        print ("Metadata: " +:+ json_dumps metadata)
          (print ("Cache directory: " +:+ temp_dir)
             (print ("Using level: " +:+ Os.str level_index)
                (print ("Using format: " +:+ format)
                   (print ("FolderUrl: " +:+ folder_url) p))))
      else p in
    w ← Folder.download remote folder level_index temp_dir (disk p);
    let out := Os.path_join (Args.out args) (out_file_name +:+ "." +:+ format) in
    image ← Folder.join_tiles decode folder level_index temp_dir w;
    w ← image_save image out w;
    let p := Process w (stdout p) in
    Ok (if Args.verbose args then print ("Wrote joined image to: " +:+ out) p else p).

(** The loop of the main block over the items of the scene configuration. *)
Definition do_items (args : Args.t) (widget_url : string) (items : list item)
    (p : process) : result process :=
  for_each items (fun item p =>
    match item with
    | Pages metadata pageFolders =>
        for_each pageFolders (fun folder_name =>
          do_item_folder args widget_url metadata folder_name) p
    | Single metadata pyramidFolder =>
        do_item_folder args widget_url metadata pyramidFolder p
    end) p.

End Script.

End Script.

(** More of the small pyramid: its command line and its scene. *)
Module Demo2.

Definition lower_char (ch : ascii) : ascii :=
  let n := nat_of_ascii ch in
  if (65 <=? n)%nat && (n <=? 90)%nat then ascii_of_nat (n + 32) else ch.

(** [casefold] on ASCII text. *)
Fixpoint lower (s : string) : string :=
  match s with
  | EmptyString => EmptyString
  | String ch s' => String (lower_char ch) (lower s')
  end.

Definition json_dumps (_ : Metadata.t) : string := "{}".

Definition encoder (_ : string) (im : Image.t) : option bytes :=
  Some [Byte.xff; Byte.xd8; Byte.xff].

Definition args : Args.t :=
  {| Args.url := "http://host/view"; Args.out := "/out"; Args.format := None;
     Args.name := None; Args.level := None; Args.forceDownload := false;
     Args.verbose := false |}.

Definition named (name : string) : Args.t :=
  {| Args.url := "http://host/view"; Args.out := "/out"; Args.format := None;
     Args.name := Some name; Args.level := None; Args.forceDownload := false;
     Args.verbose := true |}.

Definition metadata : Metadata.t :=
  {| Metadata.width := 3; Metadata.height := 2; Metadata.tileSize := 2;
     Metadata.format := "jpg" |}.

Definition unit_metadata : Metadata.t :=
  {| Metadata.width := 1; Metadata.height := 1; Metadata.tileSize := 2;
     Metadata.format := "jpg" |}.

Definition start : process := Process Demo.empty_world [].

(** What [Demo.decoder] makes of a tile. *)
Definition white_tile : Image.t :=
  {| Image.size := (2, 2); Image.getpixel := fun _ _ => (255, 255, 255) |}.

Definition items : list item :=
  [Pages metadata ["page_files"; "other_files"]; Single metadata "cover_files"].

End Demo2.

(** Whether character [c] occurs in [s]. *)
Fixpoint occurs (c : ascii) (s : string) : bool :=
  match s with
  | EmptyString => false
  | String ch s' => bool_decide (ch = c) || occurs c s'
  end.

(** ** Facts about the float primitives *)

Section FloatFacts.

Lemma ceil_div_spec a b : 0 < b -> (ceil_div a b - 1) * b < a <= ceil_div a b * b.
Proof. intros Hb. unfold ceil_div. Z.div_mod_to_equations. nia. Qed.

Lemma ceil_div_2 a : ceil_div a 2 = (a + 1) / 2.
Proof. unfold ceil_div. Z.div_mod_to_equations. lia. Qed.

Lemma rne_lower n d : 0 <= n -> 0 < d -> n / d <= rne n d.
Proof.
  intros Hn Hd. unfold rne.
  destruct (2 * (n mod d) ?= d); [destruct (Z.even _)| |]; lia.
Qed.

Lemma rne_upper n d : 0 <= n -> 0 < d -> rne n d <= n / d + 1.
Proof.
  intros Hn Hd. unfold rne.
  destruct (2 * (n mod d) ?= d); [destruct (Z.even _)| |]; lia.
Qed.

Lemma rne_nonneg n d : 0 <= n -> 0 < d -> 0 <= rne n d.
Proof.
  intros Hn Hd. pose proof (rne_lower n d Hn Hd).
  pose proof (Z.div_pos n d Hn Hd). lia.
Qed.

Lemma rne_exact q d : 0 < d -> rne (q * d) d = q.
Proof.
  intros Hd. unfold rne.
  rewrite Z.mod_mul, Z.div_mul by lia.
  destruct (Z.compare_spec (2 * 0) d); lia.
Qed.

Lemma rne_1 n : rne n 1 = n.
Proof. rewrite <- (Z.mul_1_r n) at 1. by apply rne_exact. Qed.

Lemma floor_log2_ratio_1 n : 0 < n -> floor_log2_ratio n 1 = Z.log2 n.
Proof.
  intros Hn. unfold floor_log2_ratio.
  change (Z.log2 1) with 0. rewrite Z.sub_0_r.
  pose proof (Z.log2_nonneg n). pose proof (Z.log2_spec n Hn).
  destruct (0 <=? Z.log2 n) eqn:E; [|lia].
  destruct (1 * 2 ^ Z.log2 n <=? n) eqn:E'; lia.
Qed.

(** The float of a positive [int]: its leading 53 bits, rounded. *)
Lemma round_ratio_int n :
  0 < n ->
  round_ratio n 1 =
    let e := Z.log2 n - 52 in
    let m := if 0 <=? e then rne n (2 ^ e) else n * 2 ^ (- e) in
    if 1024 <=? Z.log2 m + e then None else Some (Float m e).
Proof.
  intros Hn. unfold round_ratio. rewrite floor_log2_ratio_1 by done.
  pose proof (Z.log2_nonneg n).
  rewrite Z.max_l by lia. cbv zeta.
  rewrite Z.mul_1_l.
  destruct (0 <=? Z.log2 n - 52); [done|].
  by rewrite rne_1.
Qed.

Lemma round_ratio_int_small n :
  0 < n < 2 ^ 53 ->
  round_ratio n 1 = Some (Float (n * 2 ^ (52 - Z.log2 n)) (Z.log2 n - 52)).
Proof.
  intros [Hn Hlt]. rewrite round_ratio_int by done. cbv zeta.
  pose proof (Z.log2_nonneg n).
  assert (Z.log2 n < 53) by (by apply Z.log2_lt_pow2).
  replace (- (Z.log2 n - 52)) with (52 - Z.log2 n) by lia.
  assert ((if 0 <=? Z.log2 n - 52 then rne n (2 ^ (Z.log2 n - 52))
           else n * 2 ^ (52 - Z.log2 n)) = n * 2 ^ (52 - Z.log2 n)) as ->.
  { destruct (0 <=? Z.log2 n - 52) eqn:E; [|done].
    replace (Z.log2 n) with 52 by lia. simpl. rewrite rne_1. lia. }
  rewrite Z.log2_mul_pow2 by lia.
  destruct (1024 <=? 52 - Z.log2 n + Z.log2 n + (Z.log2 n - 52)) eqn:E; [lia|done].
Qed.

(** Ceiling of [a * 2 ^ s / 2 ^ (s + 1)]. *)
Lemma ceil_scaled_half a s :
  0 <= s -> - ((- (a * 2 ^ s)) / 2 ^ (s + 1)) = (a + 1) / 2.
Proof.
  intros Hs. rewrite Z.pow_add_r by lia. change (2 ^ 1) with 2.
  assert (0 < 2 ^ s) by (by apply Z.pow_pos_nonneg).
  replace (- (a * 2 ^ s)) with ((- a) * 2 ^ s) by lia.
  rewrite (Z.mul_comm (2 ^ s) 2), Z.div_mul_cancel_r by lia.
  Z.div_mod_to_equations. lia.
Qed.

(** On [int]s of magnitude at most [2 ^ 53] the float detour of
    [math.ceil(n * 0.5)] is exact. *)
Lemma ceil_half_exact n :
  - 2 ^ 53 <= n <= 2 ^ 53 ->
  math_ceil <$> int_mul_half n = Ok ((n + 1) / 2).
Proof.
  intros Hn.
  destruct (decide (n = 0)) as [->|]; [done|].
  destruct (decide (n = 2 ^ 53)) as [->|]; [by vm_compute|].
  destruct (decide (n = - 2 ^ 53)) as [->|]; [by vm_compute|].
  unfold int_mul_half, int_to_float, round_signed.
  destruct (n =? 0) eqn:E0; [lia|].
  rewrite round_ratio_int_small by lia. simpl.
  f_equal. unfold math_ceil, mul_half. simpl.
  assert (0 <= Z.log2 (Z.abs n) < 53).
  { split; [apply Z.log2_nonneg|]. apply Z.log2_lt_pow2; lia. }
  destruct (0 <=? Z.log2 (Z.abs n) - 52 - 1) eqn:E; [lia|].
  replace (- (Z.log2 (Z.abs n) - 52 - 1)) with (52 - Z.log2 (Z.abs n) + 1) by lia.
  replace (Z.sgn n * 1 * (Z.abs n * 2 ^ (52 - Z.log2 (Z.abs n))))
    with (n * 2 ^ (52 - Z.log2 (Z.abs n))) by lia.
  apply ceil_scaled_half. lia.
Qed.

(** Halving never takes a dimension above the power of two it is under:
    rounding to a float is monotone and powers of two are floats. *)
Lemma ceil_half_le_pow2 n k f :
  1 <= k -> 0 < n <= 2 ^ k ->
  int_mul_half n = Ok f -> math_ceil f <= 2 ^ (k - 1).
Proof.
  intros Hk [Hn Hle] Hf.
  assert (2 ^ k = 2 * 2 ^ (k - 1)) as Hpow.
  { rewrite <- Z.pow_succ_r by lia. f_equal. lia. }
  destruct (decide (n <= 2 ^ 53)) as [Hs|Hbig].
  { pose proof (ceil_half_exact n ltac:(lia)) as Hex.
    rewrite Hf in Hex. simpl in Hex. injection Hex as ->.
    Z.div_mod_to_equations. lia. }
  unfold int_mul_half, int_to_float, round_signed in Hf.
  destruct (n =? 0) eqn:E0; [lia|].
  rewrite Z.abs_eq, round_ratio_int in Hf by lia. cbv zeta in Hf.
  assert (53 <= Z.log2 n) as HE.
  { apply Z.log2_le_pow2; lia. }
  destruct (0 <=? Z.log2 n - 52) eqn:Ee; [|lia].
  remember (Z.log2 n - 52) as e eqn:He.
  destruct (1024 <=? Z.log2 (rne n (2 ^ e)) + e); [done|].
  simpl in Hf. injection Hf as <-.
  unfold math_ceil, mul_half. simpl.
  destruct (0 <=? e - 1) eqn:E1; [|lia].
  replace (Z.sgn n * 1 * rne n (2 ^ e)) with (rne n (2 ^ e)) by lia.
  assert (0 < 2 ^ e) as Hpe by (apply Z.pow_pos_nonneg; lia).
  assert (0 < 2 ^ (e - 1)) as Hpe1 by (apply Z.pow_pos_nonneg; lia).
  assert (2 ^ e = 2 * 2 ^ (e - 1)) as Hpe2.
  { rewrite <- Z.pow_succ_r by lia. f_equal. lia. }
  destruct (decide (n = 2 ^ k)) as [->|Hne].
  - rewrite Z.log2_pow2 in He by lia.
    replace (2 ^ k) with (2 ^ 52 * 2 ^ e) at 1
      by (rewrite <- Z.pow_add_r by lia; f_equal; lia).
    rewrite rne_exact by done.
    rewrite <- Z.pow_add_r by lia. apply Z.eq_le_incl. f_equal. lia.
  - assert (Z.log2 n < k) as Hlk by (apply Z.log2_lt_pow2; lia).
    pose proof (Z.log2_spec n Hn) as [_ Hup].
    assert (n / 2 ^ e < 2 ^ 53) as Hq.
    { apply Z.div_lt_upper_bound; [done|].
      rewrite <- Z.pow_add_r by lia.
      replace (e + 53) with (Z.succ (Z.log2 n)) by lia. done. }
    pose proof (rne_upper n (2 ^ e) ltac:(lia) Hpe) as Hm.
    assert (2 ^ 53 * 2 ^ (e - 1) <= 2 ^ (k - 1)) as Hfin.
    { rewrite <- Z.pow_add_r by lia. apply Z.pow_le_mono_r; lia. }
    nia.
Qed.

Lemma ceil_half_log2_up n f :
  2 <= n -> int_mul_half n = Ok f ->
  Z.log2_up (math_ceil f) < Z.log2_up n.
Proof.
  intros Hn Hf.
  pose proof (Z.log2_up_spec n ltac:(lia)) as [_ Hup].
  assert (1 <= Z.log2_up n) as Hk.
  { pose proof (Z.log2_up_pos n ltac:(lia)). lia. }
  pose proof (ceil_half_le_pow2 n _ f Hk ltac:(lia) Hf) as Hc.
  destruct (decide (math_ceil f <= 1)) as [Hs|Hs].
  - rewrite (Z.log2_up_eqn0 (math_ceil f)) by done. lia.
  - apply Z.log2_up_le_pow2 in Hc; lia.
Qed.

Lemma ceil_half_small n f :
  n <= 1 -> int_mul_half n = Ok f -> math_ceil f <= 1.
Proof.
  intros Hn Hf.
  destruct (decide (0 <= n)) as [Hpos|Hneg].
  { pose proof (ceil_half_exact n ltac:(lia)) as Hex.
    rewrite Hf in Hex. simpl in Hex. injection Hex as ->.
    Z.div_mod_to_equations. lia. }
  unfold int_mul_half, int_to_float, round_signed in Hf.
  destruct (n =? 0) eqn:E0; [lia|].
  rewrite round_ratio_int in Hf by lia. cbv zeta in Hf.
  set (e := Z.log2 (Z.abs n) - 52) in *.
  set (m := if 0 <=? e then rne (Z.abs n) (2 ^ e) else Z.abs n * 2 ^ (- e)) in *.
  assert (0 <= m) as Hm.
  { subst m. destruct (0 <=? e) eqn:Ee.
    - apply rne_nonneg; [lia|]. apply Z.pow_pos_nonneg; lia.
    - apply Z.mul_nonneg_nonneg; [lia|]. apply Z.pow_nonneg. lia. }
  destruct (1024 <=? Z.log2 m + e); [done|].
  simpl in Hf. injection Hf as <-.
  unfold math_ceil, mul_half. simpl.
  replace (Z.sgn n * 1 * m) with (- m) by lia.
  destruct (0 <=? e - 1) eqn:E1.
  - assert (0 <= 2 ^ (e - 1)) by (apply Z.pow_nonneg; lia). nia.
  - rewrite Z.opp_involutive.
    assert (0 <= m / 2 ^ (- (e - 1))); [|lia].
    apply Z.div_pos; [done|]. apply Z.pow_pos_nonneg; lia.
Qed.

Lemma rne_le_int n d c : 0 <= n -> 0 < d -> n <= c * d -> rne n d <= c.
Proof.
  intros Hn Hd Hle. unfold rne.
  pose proof (Z.div_mod n d ltac:(lia)). pose proof (Z.mod_pos_bound n d Hd).
  destruct (Z.compare_spec (2 * (n mod d)) d); [destruct (Z.even _)| |]; nia.
Qed.

Lemma rne_gt_int n d b :
  0 <= n -> 0 < d -> b * d < n -> d < 2 * (n - b * d) -> b < rne n d.
Proof.
  intros Hn Hd Hlt Hr. unfold rne.
  pose proof (Z.div_mod n d ltac:(lia)). pose proof (Z.mod_pos_bound n d Hd).
  destruct (Z.compare_spec (2 * (n mod d)) d); [destruct (Z.even _)| |]; nia.
Qed.

(** The exponent found for [n / d] is not above the quotient's. *)
Lemma floor_log2_ratio_lower n d :
  0 < n -> 0 < d ->
  let E := floor_log2_ratio n d in
  (0 <= E -> d * 2 ^ E <= n) /\ (E < 0 -> d <= n * 2 ^ (- E)).
Proof.
  intros Hn Hd. unfold floor_log2_ratio.
  pose proof (Z.log2_spec n Hn) as [Hn1 _].
  pose proof (Z.log2_spec d Hd) as [_ Hd2].
  pose proof (Z.log2_nonneg n). pose proof (Z.log2_nonneg d).
  remember (Z.log2 n - Z.log2 d) as k eqn:Hk.
  destruct (0 <=? k) eqn:E0.
  - destruct (d * 2 ^ k <=? n) eqn:E1; cbv zeta; [lia|].
    split; intros Hs.
    + assert (0 < 2 ^ (k - 1)) by (apply Z.pow_pos_nonneg; lia).
      assert (2 ^ Z.succ (Z.log2 d) * 2 ^ (k - 1) = 2 ^ Z.log2 n) as Heq.
      { rewrite <- Z.pow_add_r by lia. f_equal. lia. }
      nia.
    + assert (k = 0) as -> by lia. change (- (0 - 1)) with 1.
      replace (Z.log2 n) with (Z.log2 d) in * by lia.
      rewrite Z.pow_succ_r in Hd2 by lia. lia.
  - destruct (d <=? n * 2 ^ (- k)) eqn:E1; cbv zeta; [lia|].
    split; intros Hs; [lia|].
    assert (0 < 2 ^ (- (k - 1))) by (apply Z.pow_pos_nonneg; lia).
    assert (2 ^ Z.log2 n * 2 ^ (- (k - 1)) = 2 ^ Z.succ (Z.log2 d)) as Heq.
    { rewrite <- Z.pow_add_r by lia. f_equal. lia. }
    nia.
Qed.

Lemma floor_log2_ratio_bounds n d :
  0 < n -> 0 < d ->
  Z.log2 n - Z.log2 d - 1 <= floor_log2_ratio n d <= Z.log2 n - Z.log2 d.
Proof.
  intros Hn Hd. unfold floor_log2_ratio.
  destruct (if 0 <=? _ then _ else _); lia.
Qed.

(** On operands from 1 to [2 ^ 53] the float detour of
    [math.ceil(a / b)] is exact. *)
Lemma ceil_truediv_exact a b :
  1 <= a <= 2 ^ 53 -> 1 <= b <= 2 ^ 53 ->
  math_ceil <$> truediv a b = Ok (ceil_div a b).
Proof.
  intros Ha Hb.
  pose proof (ceil_div_spec a b ltac:(lia)) as Hc.
  remember (ceil_div a b) as c eqn:Ec. clear Ec.
  assert (1 <= c) as Hc1 by nia.
  unfold truediv, round_signed.
  destruct (b =? 0) eqn:Eb; [lia|]. destruct (a =? 0) eqn:Ea; [lia|].
  rewrite !Z.abs_eq by lia. unfold round_ratio.
  pose proof (floor_log2_ratio_lower a b ltac:(lia) ltac:(lia)) as [Hl1 Hl2].
  pose proof (floor_log2_ratio_bounds a b ltac:(lia) ltac:(lia)) as HE.
  cbv zeta in Hl1, Hl2.
  remember (floor_log2_ratio a b) as E eqn:HeqE. clear HeqE.
  assert (0 <= Z.log2 a <= 53) as Hla.
  { split; [apply Z.log2_nonneg|].
    change 53 with (Z.log2 (2 ^ 53)). apply Z.log2_le_mono. lia. }
  assert (0 <= Z.log2 b <= 53) as Hlb.
  { split; [apply Z.log2_nonneg|].
    change 53 with (Z.log2 (2 ^ 53)). apply Z.log2_le_mono. lia. }
  rewrite Z.max_l by lia.
  destruct (decide (E = 53)) as [->|HE53].
  { (* only 2 ^ 53 / 1 has this exponent *)
    assert (2 ^ 53 <= a) by (specialize (Hl1 ltac:(lia)); nia).
    assert (a = 2 ^ 53) as -> by lia.
    assert (b = 1) as -> by (specialize (Hl1 ltac:(lia)); lia).
    assert (c = 2 ^ 53) as -> by lia. by vm_compute. }
  remember (52 - E) as s eqn:Hs.
  assert (0 <= s) as Hs0 by lia.
  assert (0 < 2 ^ s) as HP by (by apply Z.pow_pos_nonneg).
  assert ((if 0 <=? E - 52 then rne a (b * 2 ^ (E - 52))
           else rne (a * 2 ^ (- (E - 52))) b) = rne (a * 2 ^ s) b) as ->.
  { destruct (0 <=? E - 52) eqn:Ee.
    - assert (E = 52) as -> by lia. subst s. simpl.
      by rewrite Z.mul_1_r, Z.mul_1_r.
    - do 2 f_equal. f_equal. lia. }
  assert (b * 2 ^ 52 <= a * 2 ^ s) as Hbs.
  { destruct (decide (0 <= E)) as [HE0|HE0].
    - specialize (Hl1 HE0).
      assert (2 ^ 52 = 2 ^ E * 2 ^ s) as ->
        by (rewrite <- Z.pow_add_r by lia; f_equal; lia).
      nia.
    - specialize (Hl2 ltac:(lia)).
      assert (2 ^ s = 2 ^ (- E) * 2 ^ 52) as ->
        by (rewrite <- Z.pow_add_r by lia; f_equal; lia).
      nia. }
  remember (2 ^ s) as P eqn:HeqP.
  assert (rne (a * P) b <= c * P) as Hup.
  { apply rne_le_int; nia. }
  assert ((c - 1) * P < rne (a * P) b) as Hlo.
  { apply rne_gt_int; [nia|lia|nia|].
    assert (b <= 2 * P) by nia.
    assert (1 <= a - (c - 1) * b) as Hk by lia.
    destruct (decide (b = 2 * P /\ a - (c - 1) * b = 1)) as [[HbP Hk1]|Hn]; [|nia].
    exfalso. assert (2 ^ 53 <= a) by nia.
    assert (a = 2 * ((c - 1) * P) + 1) by nia. lia. }
  assert (Z.log2 (rne (a * P) b) + (E - 52) < 1024) as Hov.
  { assert (0 <= rne (a * P) b) by nia.
    assert (Z.log2 (rne (a * P) b) <= Z.log2 (2 ^ 53 * P)) as Hlog.
    { apply Z.log2_le_mono. nia. }
    subst P. rewrite Z.log2_mul_pow2 in Hlog by lia.
    change (Z.log2 (2 ^ 53)) with 53 in Hlog. lia. }
  destruct (1024 <=? Z.log2 (rne (a * P) b) + (E - 52)) eqn:Eo; [lia|].
  simpl. f_equal. unfold math_ceil. simpl.
  replace (Z.sgn a * Z.sgn b * rne (a * P) b) with (rne (a * P) b) by lia.
  destruct (0 <=? E - 52) eqn:Ee.
  - assert (E = 52) as -> by lia. simpl.
    assert (P = 1) by (subst P s; done). lia.
  - replace (- (E - 52)) with s by lia. rewrite <- HeqP.
    Z.div_mod_to_equations. nia.
Qed.

End FloatFacts.

(** ** The level calculator *)

Section LevelFacts.

Import Folder.

Lemma log2_up_small a : a <= 1 -> Z.log2_up a = 0.
Proof. apply Z.log2_up_eqn0. Qed.

Lemma log2_up_le_0 a : Z.log2_up a <= 0 -> a <= 1.
Proof.
  intros H. destruct (decide (a <= 1)); [done|].
  pose proof (Z.log2_up_pos a ltac:(lia)). lia.
Qed.

(** One round of the loop lowers the bound on the remaining rounds. *)
Lemma ceil_half_measure n f (fuel : nat) :
  int_mul_half n = Ok f ->
  Z.log2_up n <= Z.of_nat (S fuel) ->
  Z.log2_up (math_ceil f) <= Z.of_nat fuel.
Proof.
  intros Hf Hn. destruct (decide (2 <= n)) as [H2|H2].
  - pose proof (ceil_half_log2_up n f H2 Hf). lia.
  - rewrite log2_up_small; [lia|]. apply (ceil_half_small n); [lia|done].
Qed.

(** The loop always ends within the unrollings [rounds] grants it. *)
Lemma calculate_levels_total fuel w h acc :
  Z.max (Z.log2_up w) (Z.log2_up h) <= Z.of_nat fuel ->
  calculate_levels fuel w h acc <> OutOfFuel.
Proof.
  revert w h acc. induction fuel as [|fuel IH]; intros w h acc Hm; simpl.
  - destruct ((1 <? w) || (1 <? h)) eqn:E; [|done].
    pose proof (log2_up_le_0 w). pose proof (log2_up_le_0 h). lia.
  - destruct ((1 <? w) || (1 <? h)) eqn:E; [|done].
    destruct (int_mul_half w) as [fw| |] eqn:Ew; simpl; [|done|].
    2:{ unfold int_mul_half, int_to_float in Ew.
        by destruct (round_signed w 1). }
    destruct (int_mul_half h) as [fh| |] eqn:Eh; simpl; [|done|].
    2:{ unfold int_mul_half, int_to_float in Eh.
        by destruct (round_signed h 1). }
    apply IH.
    pose proof (ceil_half_measure w fw fuel Ew).
    pose proof (ceil_half_measure h fh fuel Eh). lia.
Qed.

Lemma init_total p w h ts fmt force : __init__ p w h ts fmt force <> OutOfFuel.
Proof.
  unfold __init__.
  pose proof (calculate_levels_total (rounds w h) w h []) as Ht.
  destruct (calculate_levels (rounds w h) w h []); simpl; [done|done|].
  exfalso. apply Ht; [|done]. unfold rounds.
  pose proof (Z.log2_up_nonneg w). pose proof (Z.log2_up_nonneg h). lia.
Qed.

(** In the exact range the loop appends the halving chain of its inputs. *)
Lemma calculate_levels_exact fuel w h acc :
  - 2 ^ 53 <= w <= 2 ^ 53 -> - 2 ^ 53 <= h <= 2 ^ 53 ->
  Z.max (Z.log2_up w) (Z.log2_up h) <= Z.of_nat fuel ->
  exists ls, calculate_levels fuel w h acc = Ok (acc ++ ls) /\ halving w h ls.
Proof.
  revert w h acc. induction fuel as [|fuel IH]; intros w h acc Hw Hh Hm.
  - exists []. simpl.
    pose proof (log2_up_le_0 w). pose proof (log2_up_le_0 h).
    destruct ((1 <? w) || (1 <? h)) eqn:E; [lia|].
    rewrite app_nil_r. split; [done|lia].
  - simpl. destruct ((1 <? w) || (1 <? h)) eqn:E.
    + pose proof (ceil_half_exact w Hw) as Ew.
      pose proof (ceil_half_exact h Hh) as Eh.
      destruct (int_mul_half w) as [fw| |] eqn:Efw; simpl in Ew; [|done..].
      destruct (int_mul_half h) as [fh| |] eqn:Efh; simpl in Eh; [|done..].
      simpl.
      pose proof (ceil_half_measure w fw fuel Efw).
      pose proof (ceil_half_measure h fh fuel Efh).
      injection Ew as Ew. injection Eh as Eh.
      rewrite <- ceil_div_2 in Ew, Eh.
      pose proof (ceil_div_spec w 2 ltac:(lia)).
    pose proof (ceil_div_spec h 2 ltac:(lia)).
      destruct (IH (math_ceil fw) (math_ceil fh) (acc ++ [Level w h]))
        as (ls & Hls & Hch); [lia..|].
      exists (Level w h :: ls). rewrite Hls, <- app_assoc. split; [done|].
      simpl. rewrite <- Ew, <- Eh. split_and!; [lia|done|done].
    + exists []. rewrite app_nil_r. split; [done|]. simpl. lia.
Qed.

Lemma halving_step w h ls i a b :
  halving w h ls -> ls !! i = Some a -> ls !! S i = Some b ->
  width b = ceil_div (width a) 2 /\ height b = ceil_div (height a) 2.
Proof.
  revert w h i. induction ls as [|l ls IH]; intros w h i Hch Ha Hb; [done|].
  destruct Hch as (_ & -> & Hch). destruct i as [|i].
  - injection Ha as <-. destruct ls as [|l' ls]; [done|].
    injection Hb as <-. by destruct Hch as (_ & -> & _).
  - simpl in Ha, Hb. eapply IH; eauto.
Qed.

Lemma halving_entry w h ls a :
  halving w h ls -> a ∈ ls -> 1 < width a \/ 1 < height a.
Proof.
  revert w h. induction ls as [|l ls IH]; intros w h Hch Hin.
  - by apply elem_of_nil in Hin.
  - destruct Hch as (Hgt & -> & Hch).
    apply elem_of_cons in Hin as [->|Hin]; [done|]. by apply (IH _ _ Hch).
Qed.

Lemma halving_last w h ls a :
  halving w h ls -> last ls = Some a ->
  ceil_div (width a) 2 <= 1 /\ ceil_div (height a) 2 <= 1.
Proof.
  revert w h. induction ls as [|l ls IH]; intros w h Hch Hl; [done|].
  destruct Hch as (_ & -> & Hch). destruct ls as [|l' ls].
  - injection Hl as <-. done.
  - rewrite last_cons_cons in Hl. by apply (IH _ _ Hch).
Qed.

Lemma halving_positive w h ls a :
  1 <= w -> 1 <= h -> halving w h ls -> a ∈ ls ->
  1 <= width a /\ 1 <= height a.
Proof.
  revert w h. induction ls as [|l ls IH]; intros w h Hw Hh Hch Hin.
  - by apply elem_of_nil in Hin.
  - destruct Hch as (_ & -> & Hch).
    apply elem_of_cons in Hin as [->|Hin]; [done|].
    pose proof (ceil_div_spec w 2 ltac:(lia)).
    pose proof (ceil_div_spec h 2 ltac:(lia)).
    apply (IH (ceil_div w 2) (ceil_div h 2)); [lia|lia|done|done].
Qed.

(** What [__init__] builds from dimensions in the exact range. *)
Lemma init_exact p w h ts fmt force :
  - 2 ^ 53 <= w <= 2 ^ 53 -> - 2 ^ 53 <= h <= 2 ^ 53 ->
  exists ls,
    __init__ p w h ts fmt force =
      Ok {| path := p; tile_size := ts; format := fmt;
            force_download := force; levels := reverse ls |} /\
    halving w h ls.
Proof.
  intros Hw Hh. unfold __init__.
  destruct (calculate_levels_exact (rounds w h) w h [] Hw Hh) as (ls & -> & Hch).
  { unfold rounds.
    pose proof (Z.log2_up_nonneg w). pose proof (Z.log2_up_nonneg h). lia. }
  by exists ls.
Qed.

End LevelFacts.

(** ** The tile grid *)

Section GridFacts.

Import Folder Image.

Lemma Zsum_cons a l : Zsum (a :: l) = a + Zsum l.
Proof. done. Qed.

Lemma Zsum_app l1 l2 : Zsum (l1 ++ l2) = Zsum l1 + Zsum l2.
Proof.
  induction l1 as [|a l1 IH]; [done|].
  rewrite <- app_comm_cons, !Zsum_cons, IH. lia.
Qed.

Lemma Zsum_scale k (g : Z -> Z) l :
  Zsum ((fun y => k * g y) <$> l) = k * Zsum (g <$> l).
Proof.
  induction l as [|a l IH]; [unfold Zsum; simpl; lia|].
  rewrite !fmap_cons, !Zsum_cons, IH. lia.
Qed.

Lemma range_S (k : nat) : range (Z.of_nat (S k)) = range (Z.of_nat k) ++ [Z.of_nat k].
Proof.
  unfold range. rewrite !Nat2Z.id, seq_S, fmap_app. done.
Qed.

Lemma elem_of_range n x : x ∈ range n <-> 0 <= x < n.
Proof.
  unfold range. rewrite list_elem_of_fmap. split.
  - intros (k & -> & Hk). apply elem_of_seq in Hk. lia.
  - intros Hx. exists (Z.to_nat x). split; [lia|]. apply elem_of_seq. lia.
Qed.

Lemma elem_of_addresses c r x y :
  (x, y) ∈ addresses c r <-> 0 <= x < c /\ 0 <= y < r.
Proof.
  unfold addresses. rewrite list_elem_of_bind. split.
  - intros (x' & Hin & Hx). apply list_elem_of_bind in Hin as (y' & Hin & Hy).
    apply list_elem_of_singleton in Hin. injection Hin as -> ->.
    by rewrite <- !elem_of_range.
  - intros [Hx Hy]. exists x. rewrite elem_of_range. split; [|done].
    apply list_elem_of_bind. exists y. rewrite elem_of_range.
    split; [|done]. by apply list_elem_of_singleton.
Qed.

(** The rectangle of an in-grid tile: the formula of the tile rect. *)
Lemma tile_rect_formula self lvl x y :
  0 < tile_size self -> 0 <= x -> 0 <= y ->
  tile_rect self lvl x y =
    Rect (x * tile_size self) (y * tile_size self)
         (Z.min (tile_size self) (width lvl - x * tile_size self))
         (Z.min (tile_size self) (height lvl - y * tile_size self)).
Proof.
  intros Hts Hx Hy. unfold tile_rect, paste_region. simpl.
  f_equal; nia.
Qed.

(** Extents along one axis add up to the level's extent. *)
Lemma extent_sum ts n (k : nat) :
  0 < ts -> 0 <= n -> (Z.of_nat k - 1) * ts < n ->
  Zsum ((fun x => Z.min ts (n - x * ts)) <$> range (Z.of_nat k)) =
    Z.min (Z.of_nat k * ts) n.
Proof.
  intros Hts Hn. induction k as [|k IH]; intros Hk.
  - unfold Zsum. simpl. lia.
  - rewrite range_S, fmap_app, Zsum_app, IH by nia.
    rewrite fmap_cons, Zsum_cons. unfold Zsum. simpl foldr. nia.
Qed.

Lemma extent_sum_ceil ts n :
  0 < ts -> 1 <= n ->
  Zsum ((fun x => Z.min ts (n - x * ts)) <$> range (ceil_div n ts)) = n.
Proof.
  intros Hts Hn. pose proof (ceil_div_spec n ts Hts) as Hc.
  assert (1 <= ceil_div n ts) as Hc1 by nia.
  rewrite <- (Z2Nat.id (ceil_div n ts)) by lia.
  rewrite extent_sum; rewrite ?Z2Nat.id; lia.
Qed.

Lemma grid_area_product self lvl c r :
  0 < tile_size self ->
  grid_area self lvl c r =
    Zsum ((fun x => Z.min (tile_size self) (width lvl - x * tile_size self))
            <$> range c) *
    Zsum ((fun y => Z.min (tile_size self) (height lvl - y * tile_size self))
            <$> range r).
Proof.
  intros Hts. unfold grid_area, addresses.
  assert (forall l, (forall x, x ∈ l -> 0 <= x) ->
    Zsum ((fun a => area (tile_rect self lvl a.1 a.2))
            <$> (x ← l; y ← range r; [(x, y)])) =
    Zsum ((fun x => Z.min (tile_size self) (width lvl - x * tile_size self)) <$> l) *
    Zsum ((fun y => Z.min (tile_size self) (height lvl - y * tile_size self))
            <$> range r)) as Hgen.
  { induction l as [|x l IH]; intros Hl; [done|].
    rewrite bind_cons, fmap_app, Zsum_app, IH
      by (intros; apply Hl; by right).
    simpl. rewrite Z.mul_add_distr_r. f_equal.
    rewrite <- Zsum_scale. f_equal.
    assert (0 <= x) as Hx by (apply Hl; by left).
    clear IH Hl. generalize (range r) (fun y => proj1 (elem_of_range r y)).
    induction l0 as [|y l0 IH]; intros Hr; [done|].
    simpl. f_equal.
    - rewrite tile_rect_formula; [done|done|done|]. apply Hr. by left.
    - apply IH. intros y' Hy'. apply Hr. by right. }
  apply Hgen. intros x Hx. apply elem_of_range in Hx. lia.
Qed.

Lemma in_rect_tile self lvl x y i j :
  0 < tile_size self -> 0 <= x -> 0 <= y ->
  in_rect (tile_rect self lvl x y) i j = true <->
  (x * tile_size self <= i < (x + 1) * tile_size self /\ i < width lvl) /\
  (y * tile_size self <= j < (y + 1) * tile_size self /\ j < height lvl).
Proof.
  intros Hts Hx Hy. rewrite tile_rect_formula by done.
  unfold in_rect. simpl. rewrite !andb_true_iff. lia.
Qed.

End GridFacts.

(** ** Loops, the cache and the remote host *)

Section LoopFacts.

Context {A S : Type}.
Implicit Types (l : list A) (body : A -> S -> result S).

Lemma for_each_preserve (P : S -> Prop) l body s s' :
  (forall a s s', a ∈ l -> body a s = Ok s' -> P s -> P s') ->
  for_each l body s = Ok s' -> P s -> P s'.
Proof.
  revert s. induction l as [|a l IH]; intros s Hb Hf HP; simpl in Hf.
  - by injection Hf as <-.
  - destruct (body a s) as [s1| |] eqn:E; simpl in Hf; [|done..].
    apply (IH s1); [|done|].
    + intros b t t' Hin. apply Hb. by right.
    + apply (Hb a s s1); [by left|done..].
Qed.

Lemma for_each_establish (Q : A -> S -> Prop) l body s s' :
  (forall a s s', a ∈ l -> body a s = Ok s' -> Q a s') ->
  (forall a b s s', b ∈ l -> body b s = Ok s' -> Q a s -> Q a s') ->
  for_each l body s = Ok s' -> forall a, a ∈ l -> Q a s'.
Proof.
  revert s. induction l as [|b l IH]; intros s He Hk Hf a Hin.
  - by apply elem_of_nil in Hin.
  - simpl in Hf. destruct (body b s) as [s1| |] eqn:E; simpl in Hf; [|done..].
    apply elem_of_cons in Hin as [->|Hin].
    + apply (for_each_preserve (Q b) l body s1 s'); [|done|].
      * intros c t t' Hc. apply Hk. by right.
      * apply (He b s s1); [by left|done].
    + apply (IH s1); [| |done..].
      * intros c t t' Hc. apply He. by right.
      * intros c d t t' Hd. apply Hk. by right.
Qed.

Lemma for_each_raised l body s e :
  for_each l body s = Raised e ->
  exists a s0, a ∈ l /\ body a s0 = Raised e.
Proof.
  revert s. induction l as [|a l IH]; intros s Hf; simpl in Hf; [done|].
  destruct (body a s) as [s1| |] eqn:E; simpl in Hf.
  - destruct (IH s1 Hf) as (b & s0 & Hin & Hb).
    exists b, s0. split; [by right|done].
  - injection Hf as ->. exists a, s. split; [by left|done].
  - done.
Qed.

Lemma for_each_returns l body s :
  (forall a s, a ∈ l -> exists s', body a s = Ok s') ->
  exists s', for_each l body s = Ok s'.
Proof.
  revert s. induction l as [|a l IH]; intros s Hb; simpl; [by eexists|].
  destruct (Hb a s) as [s1 ->]; [by left|]. simpl.
  apply IH. intros b t Hin. apply Hb. by right.
Qed.

End LoopFacts.

Section EngineFacts.

Import Folder.

Variable remote : list string -> string -> option Response.
Variable decode : bytes -> option Image.t.

Lemma write_overwrites p blob w :
  file_write p blob (open_wb p w) = World (<[p := blob]> (files w)) (requests w).
Proof.
  unfold file_write, open_wb. simpl.
  by rewrite lookup_insert_eq, insert_insert_eq.
Qed.

Lemma exists_true p w : exists_ p w = true <-> is_Some (files w !! p).
Proof. unfold exists_. by rewrite bool_decide_eq_true. Qed.

(** A cache hit without [force_download]: nothing happens. *)
Lemma download_tile_hit self i folder x y w :
  exists_ (tile_path self folder x y) w = true ->
  force_download self = false ->
  download_tile remote self i folder x y w = Ok w.
Proof. intros He Hf. unfold download_tile. by rewrite He, Hf. Qed.

(** A miss or a forced refresh: one GET, whose body becomes the file. *)
Lemma download_tile_fetch self i folder x y w r :
  negb (exists_ (tile_path self folder x y) w) || force_download self = true ->
  remote (requests w) (tile_url self i x y) = Some r ->
  download_tile remote self i folder x y w =
    Ok (World (<[tile_path self folder x y := content r]> (files w))
              (requests w ++ [tile_url self i x y])).
Proof.
  intros Hc Hr. unfold download_tile, session_get. rewrite Hc, Hr. simpl.
  by rewrite write_overwrites.
Qed.

(** A block ends in the last of the worlds it goes through. *)
Lemma run_block_last block w :
  block <> [] -> last (worlds_after block w) = Some (run_block block w).
Proof.
  unfold run_block. revert w. induction block as [|stmt block IH]; intros w Hb.
  - done.
  - destruct block as [|stmt' block'].
    + done.
    + change (last (worlds_after (stmt' :: block') (stmt w)) =
              Some (foldl (fun w stmt => stmt w) (stmt w) (stmt' :: block'))).
      by apply IH.
Qed.

(** The two worlds of the write block: the file created or truncated,
    then holding the bytes. *)
Lemma write_trace_worlds p blob w :
  write_trace p blob w =
    [World (<[p := []]> (files w)) (requests w);
     World (<[p := blob]> (files w)) (requests w)].
Proof.
  unfold write_trace, write_block. simpl. by rewrite write_overwrites.
Qed.

(** A fetch is the GET followed by the write block: it goes through the
    worlds of [write_trace] and ends in the last of them. *)
Lemma download_tile_runs_block self i folder x y w r :
  negb (exists_ (tile_path self folder x y) w) || force_download self = true ->
  remote (requests w) (tile_url self i x y) = Some r ->
  download_tile remote self i folder x y w =
    Ok (run_block (write_block (tile_path self folder x y) (content r))
          (World (files w) (requests w ++ [tile_url self i x y]))).
Proof.
  intros Hc Hr. unfold download_tile, session_get. by rewrite Hc, Hr.
Qed.

Lemma download_tile_ends_trace self i folder x y w r w' :
  negb (exists_ (tile_path self folder x y) w) || force_download self = true ->
  remote (requests w) (tile_url self i x y) = Some r ->
  download_tile remote self i folder x y w = Ok w' <->
  last (write_trace (tile_path self folder x y) (content r)
          (World (files w) (requests w ++ [tile_url self i x y]))) = Some w'.
Proof.
  intros Hc Hr. rewrite (download_tile_runs_block _ _ _ _ _ _ _ Hc Hr).
  unfold write_trace. rewrite run_block_last by done.
  split; intros Heq; by injection Heq as <-.
Qed.

Lemma download_tile_fetched self i folder x y w r :
  negb (exists_ (tile_path self folder x y) w) || force_download self = true ->
  remote (requests w) (tile_url self i x y) = Some r ->
  exists w',
    download_tile remote self i folder x y w = Ok w' /\
    files w' !! tile_path self folder x y = Some (content r) /\
    requests w' = requests w ++ [tile_url self i x y] /\
    exists_ (tile_path self folder x y) w' = true.
Proof.
  intros Hc Hr. eexists. split; [by apply download_tile_fetch|]. simpl.
  rewrite lookup_insert_eq. split_and!; [done..|].
  apply exists_true. simpl. rewrite lookup_insert_eq. by eexists.
Qed.

Lemma download_tile_cases self i folder x y w w' :
  download_tile remote self i folder x y w = Ok w' ->
  w' = w /\ exists_ (tile_path self folder x y) w = true \/
  exists r, w' = World (<[tile_path self folder x y := content r]> (files w))
                       (requests w ++ [tile_url self i x y]).
Proof.
  unfold download_tile, session_get. intros Hd.
  destruct (negb _ || _) eqn:Hc.
  - right. destruct (remote _ _) as [r|]; [|done]. simpl in Hd.
    rewrite write_overwrites in Hd. injection Hd as <-. by exists r.
  - left. injection Hd as <-. split; [done|].
    apply orb_false_iff in Hc as [Hc _]. by apply negb_false_iff.
Qed.

Lemma download_tile_keeps self i folder x y w w' p :
  download_tile remote self i folder x y w = Ok w' ->
  is_Some (files w !! p) -> is_Some (files w' !! p).
Proof.
  intros Hd Hp. apply download_tile_cases in Hd as [[-> _]|[r ->]]; [done|].
  simpl. destruct (decide (tile_path self folder x y = p)) as [->|Hne].
  - rewrite lookup_insert_eq. by eexists.
  - by rewrite lookup_insert_ne.
Qed.

Lemma download_tile_has self i folder x y w w' :
  download_tile remote self i folder x y w = Ok w' ->
  is_Some (files w' !! tile_path self folder x y).
Proof.
  intros Hd. apply download_tile_cases in Hd as [[-> He]|[r ->]].
  - by apply exists_true.
  - simpl. rewrite lookup_insert_eq. by eexists.
Qed.

(** After the two loops every tile of the grid has its file. *)
Lemma download_loops_fill self i folder c r w w' :
  for_each (range c) (fun x =>
    for_each (range r) (fun y => download_tile remote self i folder x y)) w
    = Ok w' ->
  forall x y, 0 <= x < c -> 0 <= y < r ->
    is_Some (files w' !! tile_path self folder x y).
Proof.
  intros Hd x y Hx. revert y.
  refine (for_each_establish
            (fun x u => forall y, 0 <= y < r ->
               is_Some (files u !! tile_path self folder x y))
            (range c) _ w w' _ _ Hd x _).
  - intros x' t t' _ Hin y' Hy'.
    refine (for_each_establish
              (fun y u => is_Some (files u !! tile_path self folder x' y))
              (range r) _ t t' _ _ Hin y' _).
    + intros y0 u u' _. apply download_tile_has.
    + intros y0 y1 u u' _. apply download_tile_keeps.
    + by apply elem_of_range.
  - intros x0 x1 t t' _ Hin Hq y' Hy'.
    refine (for_each_preserve
              (fun u => is_Some (files u !! tile_path self folder x0 y'))
              (range r) _ t t' _ Hin (Hq y' Hy')).
    intros y1 u u' _. apply download_tile_keeps.
  - by apply elem_of_range.
Qed.

Lemma join_tile_size self folder w x y im im' :
  join_tile decode self folder w x y im = Ok im' ->
  Image.size im' = Image.size im.
Proof.
  unfold join_tile. destruct (image_open decode _ w); simpl; [|done..].
  by intros [= <-].
Qed.

Lemma join_loops_size self folder w c r im im' :
  for_each (range c) (fun x =>
    for_each (range r) (fun y => join_tile decode self folder w x y)) im
    = Ok im' ->
  Image.size im' = Image.size im.
Proof.
  intros Hj.
  refine (for_each_preserve (fun u => Image.size u = Image.size im)
            (range c) _ im im' _ Hj eq_refl).
  intros x t t' _ Hin <-.
  refine (for_each_preserve (fun u => Image.size u = Image.size t)
            (range r) _ t t' _ Hin eq_refl).
  intros y u u' _ Hb <-. by apply (join_tile_size _ _ _ _ _ _ _ Hb).
Qed.

End EngineFacts.

(** ** Properties of the level calculator *)

Section LevelClaims.

Import Folder.

Lemma halving_head w h ls :
  halving w h ls -> 1 < w \/ 1 < h -> head ls = Some (Level w h).
Proof. destruct ls as [|l ls]; simpl; [lia|]. by intros (_ & -> & _) _. Qed.

Lemma halving_nil w h ls : halving w h ls -> w <= 1 -> h <= 1 -> ls = [].
Proof. destruct ls as [|l ls]; simpl; [done|lia]. Qed.

Lemma index_head {A} (l : list A) a : head l = Some a -> index l 0 = Ok a.
Proof. destruct l as [|b l]; [done|]. by intros [= ->]. Qed.

(** C1 (as the code has it): for base dimensions from 1 to 2^53, one of
    them above 1, [__init__] returns a non-empty [levels] that holds no
    1 x 1 entry; [levels[0]] is the level just before it: both its
    dimensions are 1 or 2, one of them is 2, and both ceiling-halves
    are 1. *)
Theorem levels_first_entry p W H ts fmt force :
  1 <= W <= 2 ^ 53 -> 1 <= H <= 2 ^ 53 -> 1 < W \/ 1 < H ->
  exists self l0,
    __init__ p W H ts fmt force = Ok self /\
    index (levels self) 0 = Ok l0 /\
    1 <= width l0 <= 2 /\ 1 <= height l0 <= 2 /\
    (width l0 = 2 \/ height l0 = 2) /\
    ceil_div (width l0) 2 = 1 /\ ceil_div (height l0) 2 = 1 /\
    Level 1 1 ∉ levels self.
Proof.
  intros HW HH Hgt.
  destruct (init_exact p W H ts fmt force) as (ls & Hinit & Hch); [lia..|].
  pose proof (halving_head _ _ _ Hch Hgt) as Hhd.
  destruct (last ls) as [l0|] eqn:Hlast.
  2:{ apply last_None in Hlast. by subst ls. }
  exists {| path := p; tile_size := ts; format := fmt;
            force_download := force; levels := reverse ls |}, l0.
  assert (l0 ∈ ls) as Hin.
  { rewrite last_lookup in Hlast. by apply list_elem_of_lookup_2 in Hlast. }
  pose proof (halving_last _ _ _ _ Hch Hlast) as [Hlw Hlh].
  pose proof (halving_entry _ _ _ _ Hch Hin) as Hl0.
  pose proof (halving_positive W H ls l0 ltac:(lia) ltac:(lia) Hch Hin) as [Hpw Hph].
  pose proof (ceil_div_spec (width l0) 2 ltac:(lia)).
  pose proof (ceil_div_spec (height l0) 2 ltac:(lia)).
  simpl. split_and!; try lia; [done| |].
  - apply index_head. by rewrite head_reverse.
  - rewrite elem_of_reverse. intros Hone.
    pose proof (halving_entry _ _ _ _ Hch Hone). simpl in *. lia.
Qed.

(** C2 (as the code has it): for base dimensions from 1 to 2^53 that are
    not both 1, [levels] is non-empty, its last entry is the base size,
    and each entry is the ceiling-half of the next one. *)
Theorem levels_chain p W H ts fmt force :
  1 <= W <= 2 ^ 53 -> 1 <= H <= 2 ^ 53 -> 1 < W \/ 1 < H ->
  exists self,
    __init__ p W H ts fmt force = Ok self /\
    levels self <> [] /\
    last (levels self) = Some (Level W H) /\
    forall (i : nat) a b,
      levels self !! i = Some a -> levels self !! S i = Some b ->
      width a = ceil_div (width b) 2 /\ height a = ceil_div (height b) 2.
Proof.
  intros HW HH Hgt.
  destruct (init_exact p W H ts fmt force) as (ls & Hinit & Hch); [lia..|].
  pose proof (halving_head _ _ _ Hch Hgt) as Hhd.
  eexists. split; [exact Hinit|]. simpl. split_and!.
  - intros Hnil. apply (f_equal reverse) in Hnil.
    rewrite reverse_involutive in Hnil. by subst ls.
  - by rewrite last_reverse.
  - intros i a b Ha Hb.
    apply reverse_lookup_Some in Ha as [Ha Hi].
    apply reverse_lookup_Some in Hb as [Hb Hi'].
    replace (length ls - S i)%nat with (S (length ls - S (S i))) in Ha by lia.
    apply (halving_step _ _ _ _ _ _ Hch Hb Ha).
Qed.

(** C4 (as the code has it): a base dimension that is zero or negative is
    not refused.  With both dimensions of magnitude at most 2^53,
    [__init__] returns: [levels] is empty when neither dimension exceeds
    1, and ends with the given base size otherwise. *)
Theorem nonpositive_dimension_accepted p W H ts fmt force :
  W <= 0 \/ H <= 0 ->
  - 2 ^ 53 <= W <= 2 ^ 53 -> - 2 ^ 53 <= H <= 2 ^ 53 ->
  exists self,
    __init__ p W H ts fmt force = Ok self /\
    (W <= 1 -> H <= 1 -> levels self = []) /\
    (1 < W \/ 1 < H -> last (levels self) = Some (Level W H)).
Proof.
  intros Hnp HW HH.
  destruct (init_exact p W H ts fmt force) as (ls & Hinit & Hch); [lia..|].
  eexists. split; [exact Hinit|]. simpl. split.
  - intros H1 H2. by rewrite (halving_nil _ _ _ Hch H1 H2).
  - intros Hgt. rewrite last_reverse. by apply (halving_head _ _ _ Hch).
Qed.

End LevelClaims.

(** ** Properties of the tile grid *)

Section GridClaims.

Import Folder Image.

(** C8 (as the code has it): for a level and a tile size that are all at
    least 1, the grid of [ceil_div width tile_size] columns by
    [ceil_div height tile_size] rows partitions the level: tile [(x, y)]
    covers the rectangle at [(x * tile_size, y * tile_size)] of size
    [min tile_size (width - x * tile_size)] by
    [min tile_size (height - y * tile_size)], the areas add up to
    [width * height], no two rectangles share a pixel and every pixel of
    the level lies in one.  The [columns] and [rows] that [download] and
    [join_tiles] compute are these ceilings when the three numbers are at
    most 2^53. *)
Theorem grid_partitions self lvl :
  1 <= tile_size self -> 1 <= width lvl -> 1 <= height lvl ->
  exists c r,
    c = ceil_div (width lvl) (tile_size self) /\
    r = ceil_div (height lvl) (tile_size self) /\
    (tile_size self <= 2 ^ 53 -> width lvl <= 2 ^ 53 -> height lvl <= 2 ^ 53 ->
       grid self lvl = Ok (c, r)) /\
    (forall x y, (x, y) ∈ addresses c r ->
       tile_rect self lvl x y =
         Rect (x * tile_size self) (y * tile_size self)
              (Z.min (tile_size self) (width lvl - x * tile_size self))
              (Z.min (tile_size self) (height lvl - y * tile_size self))) /\
    grid_area self lvl c r = width lvl * height lvl /\
    (forall x y x' y' i j,
       (x, y) ∈ addresses c r -> (x', y') ∈ addresses c r ->
       in_rect (tile_rect self lvl x y) i j = true ->
       in_rect (tile_rect self lvl x' y') i j = true ->
       (x, y) = (x', y')) /\
    (forall i j, 0 <= i < width lvl -> 0 <= j < height lvl ->
       exists x y, (x, y) ∈ addresses c r /\
                   in_rect (tile_rect self lvl x y) i j = true).
Proof.
  intros Hts Hw Hh.
  exists (ceil_div (width lvl) (tile_size self)),
         (ceil_div (height lvl) (tile_size self)).
  pose proof (ceil_div_spec (width lvl) (tile_size self) ltac:(lia)) as Hc.
  pose proof (ceil_div_spec (height lvl) (tile_size self) ltac:(lia)) as Hr.
  split_and!; [done|done| | | | |].
  - intros Bts Bw Bh. unfold grid. by rewrite !ceil_truediv_exact.
  - intros x y Hin. apply elem_of_addresses in Hin.
    apply tile_rect_formula; lia.
  - rewrite grid_area_product, !extent_sum_ceil by lia. done.
  - intros x y x' y' i j Ha Ha' Hi Hi'.
    apply elem_of_addresses in Ha, Ha'.
    apply in_rect_tile in Hi, Hi'; [|lia..].
    f_equal; nia.
  - intros i j Hi Hj.
    exists (i / tile_size self), (j / tile_size self).
    pose proof (Z.div_mod i (tile_size self) ltac:(lia)).
    pose proof (Z.mod_pos_bound i (tile_size self) ltac:(lia)).
    pose proof (Z.div_mod j (tile_size self) ltac:(lia)).
    pose proof (Z.mod_pos_bound j (tile_size self) ltac:(lia)).
    assert (0 <= i / tile_size self) by (apply Z.div_pos; lia).
    assert (0 <= j / tile_size self) by (apply Z.div_pos; lia).
    split.
    + apply elem_of_addresses. nia.
    + apply in_rect_tile; [lia..|]. nia.
Qed.

End GridClaims.

(** ** Properties of the cache and the fetcher *)

Section EngineClaims.

Import Folder.

(** C3 (as the code has it): the status of a response is not looked at.
    When a tile is fetched and the host answers, whatever the status
    code, the tile step returns normally, the response body has become
    the tile's cache file and the request is on record. *)
Theorem download_tile_ignores_status remote self i folder x y w r :
  negb (exists_ (tile_path self folder x y) w) || force_download self = true ->
  remote (requests w) (tile_url self i x y) = Some r ->
  exists w',
    download_tile remote self i folder x y w = Ok w' /\
    files w' !! tile_path self folder x y = Some (content r) /\
    requests w' = requests w ++ [tile_url self i x y] /\
    exists_ (tile_path self folder x y) w' = true.
Proof.
  intros Hc Hr. by apply download_tile_fetched.
Qed.

(** C5 (as the code has it): the body is written in place.  A tile step
    that fetches runs, after the GET, the two statements of the write
    block and ends in the second of the two worlds they go through.  The
    file at the tile's path is first created or truncated, then filled:
    between the two statements the path holds an empty file, no other
    path is touched in either world, and a later run without
    [force_download] that finds the empty file keeps it and sends no
    request. *)
Theorem tile_written_in_place remote self i folder x y w r :
  negb (exists_ (tile_path self folder x y) w) || force_download self = true ->
  remote (requests w) (tile_url self i x y) = Some r ->
  exists w1 w2,
    write_trace (tile_path self folder x y) (content r)
      (World (files w) (requests w ++ [tile_url self i x y])) = [w1; w2] /\
    download_tile remote self i folder x y w = Ok w2 /\
    files w1 !! tile_path self folder x y = Some [] /\
    files w2 !! tile_path self folder x y = Some (content r) /\
    (forall q, q <> tile_path self folder x y ->
       files w1 !! q = files w !! q /\ files w2 !! q = files w !! q) /\
    (force_download self = false ->
       download_tile remote self i folder x y w1 = Ok w1).
Proof.
  intros Hc Hr. eexists _, _. split; [apply write_trace_worlds|].
  simpl. split; [by apply download_tile_fetch|].
  rewrite !lookup_insert_eq. split_and!; [done..| |].
  - intros q Hq. by rewrite !lookup_insert_ne.
  - intros Hf. apply download_tile_hit; [|done]. apply exists_true. simpl.
    rewrite lookup_insert_eq. by eexists.
Qed.

(** C6: with [force_download] off, a tile whose cache file is there is
    left alone (same world, so no request and the same file at the same
    path); and from a miss that the host answers, two tile steps in a
    row send exactly one request, the second changing nothing. *)
Theorem download_tile_idempotent remote self i folder x y w :
  force_download self = false ->
  (exists_ (tile_path self folder x y) w = true ->
     download_tile remote self i folder x y w = Ok w) /\
  (forall r,
     exists_ (tile_path self folder x y) w = false ->
     remote (requests w) (tile_url self i x y) = Some r ->
     exists w1,
       download_tile remote self i folder x y w = Ok w1 /\
       download_tile remote self i folder x y w1 = Ok w1 /\
       requests w1 = requests w ++ [tile_url self i x y] /\
       files w1 !! tile_path self folder x y = Some (content r)).
Proof.
  intros Hf. split.
  - intros He. by apply download_tile_hit.
  - intros r He Hr.
    destruct (download_tile_fetched remote self i folder x y w r)
      as (w1 & H1 & H2 & H3 & H4); [by rewrite He|done|].
    exists w1. split_and!; [done| |done|done].
    by apply download_tile_hit.
Qed.

(** C7: with [force_download] on, a tile whose cache file is there is
    fetched all the same, and the file is replaced by the body of the
    response. *)
Theorem force_download_overwrites remote self i folder x y w old r :
  force_download self = true ->
  files w !! tile_path self folder x y = Some old ->
  remote (requests w) (tile_url self i x y) = Some r ->
  exists w',
    download_tile remote self i folder x y w = Ok w' /\
    requests w' = requests w ++ [tile_url self i x y] /\
    files w' !! tile_path self folder x y = Some (content r).
Proof.
  intros Hf _ Hr.
  destruct (download_tile_fetched remote self i folder x y w r)
    as (w1 & H1 & H2 & H3 & H4); [by rewrite Hf, orb_true_r|done|].
  by exists w1.
Qed.

(** C9: the image [join_tiles] returns has the size of the level, and it
    does return one when the sizes are not negative and every tile of the
    grid has a file that decodes. *)
Theorem join_tiles_size decode self i folder w lvl :
  index (levels self) i = Ok lvl ->
  (forall im, join_tiles decode self i folder w = Ok im ->
     Image.size im = (width lvl, height lvl)) /\
  (forall c r,
     grid self lvl = Ok (c, r) ->
     0 <= width lvl -> 0 <= height lvl ->
     (forall x y, (x, y) ∈ addresses c r ->
        exists blob im, files w !! tile_path self folder x y = Some blob /\
                        decode blob = Some im) ->
     exists im, join_tiles decode self i folder w = Ok im /\
                Image.size im = (width lvl, height lvl)).
Proof.
  intros Hi.
  assert (forall im, join_tiles decode self i folder w = Ok im ->
            Image.size im = (width lvl, height lvl)) as Hsize.
  { intros im. unfold join_tiles. rewrite Hi. simpl.
    destruct (truediv (width lvl) _) as [fc| |]; simpl; [|done..].
    destruct (truediv (height lvl) _) as [fr| |]; simpl; [|done..].
    unfold Image.new. simpl.
    destruct ((width lvl <? 0) || (height lvl <? 0)); simpl; [done|].
    intros Hj. by apply join_loops_size in Hj. }
  split; [done|].
  intros c r Hg Hw Hh Htiles.
  assert (exists im, join_tiles decode self i folder w = Ok im) as [im Him].
  { unfold join_tiles. rewrite Hi. simpl. unfold grid in Hg.
    destruct (truediv (width lvl) _) as [fc| |]; simpl in *; [|done..].
    destruct (truediv (height lvl) _) as [fr| |]; simpl in *; [|done..].
    injection Hg as <- <-. unfold Image.new. simpl.
    destruct ((width lvl <? 0) || (height lvl <? 0)) eqn:E; [lia|]. simpl.
    apply for_each_returns. intros x im Hx.
    apply for_each_returns. intros y im' Hy.
    destruct (Htiles x y) as (blob & src & Hb & Hd).
    { apply elem_of_addresses. by rewrite <- !elem_of_range. }
    unfold join_tile, image_open. rewrite Hb, Hd. simpl. by eexists. }
  exists im. split; [done|]. by apply Hsize.
Qed.

(** C10: when [download] returns, every tile of the level's grid has a
    file at its cache path, and [join_tiles] over the same folder does
    not raise [FileNotFoundError]. *)
Theorem download_fills_grid remote self i folder w w' :
  download remote self i folder w = Ok w' ->
  exists lvl c r,
    index (levels self) i = Ok lvl /\
    grid self lvl = Ok (c, r) /\
    (forall x y, 0 <= x < c -> 0 <= y < r ->
       is_Some (files w' !! tile_path self folder x y)) /\
    (forall decode, join_tiles decode self i folder w' <> Raised FileNotFoundError).
Proof.
  unfold download. intros Hd.
  destruct (index (levels self) i) as [lvl| |] eqn:Hi; simpl in Hd; [|done..].
  destruct (truediv (width lvl) _) as [fc| |] eqn:Hc; simpl in Hd; [|done..].
  destruct (truediv (height lvl) _) as [fr| |] eqn:Hr; simpl in Hd; [|done..].
  pose proof (download_loops_fill remote self i folder _ _ w w' Hd) as Hfill.
  exists lvl, (math_ceil fc), (math_ceil fr).
  split_and!; [done| |done|].
  { unfold grid. by rewrite Hc, Hr. }
  intros decode. unfold join_tiles. rewrite Hi. simpl. rewrite Hc, Hr. simpl.
  unfold Image.new. destruct (_ || _); simpl; [done|].
  intros Hj. apply for_each_raised in Hj as (x & im & Hx & Hj).
  apply for_each_raised in Hj as (y & im' & Hy & Hj).
  apply elem_of_range in Hx, Hy.
  destruct (Hfill x y Hx Hy) as [blob Hb].
  unfold join_tile, image_open in Hj. rewrite Hb in Hj.
  by destruct (decode blob).
Qed.

End EngineClaims.

(** ** The properties at work on concrete pyramids *)

Section Instances.

Import Folder.

(** The demo folder is what [__init__] builds for a 3 x 2 base. *)
Lemma demo_folder_init :
  __init__ "http://host/scene/page_files" 3 2 2 "jpg" false = Ok Demo.folder.
Proof. by vm_compute. Qed.

Lemma levels_first_entry_witness :
  exists self l0,
    __init__ "http://host/scene/page_files" 1000 1000 512 "jpg" false = Ok self /\
    index (levels self) 0 = Ok l0 /\
    1 <= width l0 <= 2 /\ 1 <= height l0 <= 2 /\
    (width l0 = 2 \/ height l0 = 2) /\
    ceil_div (width l0) 2 = 1 /\ ceil_div (height l0) 2 = 1 /\
    Level 1 1 ∉ levels self.
Proof.
  apply (levels_first_entry "http://host/scene/page_files" 1000 1000 512 "jpg" false);
    lia.
Defined.

(** For a 1000 x 1000 base the first level is 2 x 2, and no level is 1 x 1. *)
Lemma first_level_is_not_1x1 :
  exists self,
    __init__ "http://host/scene/page_files" 1000 1000 512 "jpg" false = Ok self /\
    index (levels self) 0 = Ok (Level 2 2) /\
    index (levels self) 0 <> Ok (Level 1 1) /\
    Level 1 1 ∉ levels self.
Proof.
  eexists. split; [vm_compute; reflexivity|]. split; [reflexivity|].
  split; [discriminate|]. apply (bool_decide_unpack _). by vm_compute.
Qed.

Lemma levels_chain_witness :
  exists self,
    __init__ "http://host/scene/page_files" 1000 1000 512 "jpg" false = Ok self /\
    levels self <> [] /\
    last (levels self) = Some (Level 1000 1000) /\
    forall (i : nat) a b,
      levels self !! i = Some a -> levels self !! S i = Some b ->
      width a = ceil_div (width b) 2 /\ height a = ceil_div (height b) 2.
Proof.
  apply (levels_chain "http://host/scene/page_files" 1000 1000 512 "jpg" false);
    lia.
Defined.

(** A 1 x 1 base gives no level at all. *)
Lemma unit_pyramid_has_no_level :
  exists self,
    __init__ "http://host/scene/page_files" 1 1 512 "jpg" false = Ok self /\
    levels self = [] /\ last (levels self) = None.
Proof. eexists. split; [vm_compute; reflexivity|]. by split. Qed.

(** Beyond 2^53 the float of a dimension is not the dimension: the level
    below a width of 2^53 + 1 is 2^52 wide, one short of the ceiling. *)
Lemma levels_beyond_exact_range :
  exists self a b,
    __init__ "http://host/scene/page_files" (2 ^ 53 + 1) 1 512 "jpg" false = Ok self /\
    levels self !! 51%nat = Some a /\ levels self !! 52%nat = Some b /\
    b = Level (2 ^ 53 + 1) 1 /\ width a = 2 ^ 52 /\
    ceil_div (width b) 2 = 2 ^ 52 + 1.
Proof.
  eexists _, _, _. split; [vm_compute; reflexivity|].
  split; [reflexivity|]. split; [reflexivity|]. by vm_compute.
Qed.

Lemma nonpositive_dimension_accepted_witness :
  exists self,
    __init__ "http://host/scene/page_files" 0 5 512 "jpg" false = Ok self /\
    (0 <= 1 -> 5 <= 1 -> levels self = []) /\
    (1 < 0 \/ 1 < 5 -> last (levels self) = Some (Level 0 5)).
Proof.
  apply (nonpositive_dimension_accepted "http://host/scene/page_files" 0 5 512 "jpg" false);
    lia.
Defined.

(** A base width of 0 is taken as it is. *)
Lemma zero_width_is_accepted :
  exists self,
    __init__ "http://host/scene/page_files" 0 5 512 "jpg" false = Ok self /\
    levels self = [Level 0 2; Level 0 3; Level 0 5].
Proof. eexists. split; [vm_compute; reflexivity|]. reflexivity. Qed.

Lemma grid_partitions_witness :
  exists c r,
    c = ceil_div 3 2 /\ r = ceil_div 2 2 /\
    (2 <= 2 ^ 53 -> 3 <= 2 ^ 53 -> 2 <= 2 ^ 53 ->
       grid Demo.folder (Level 3 2) = Ok (c, r)) /\
    (forall x y, (x, y) ∈ addresses c r ->
       tile_rect Demo.folder (Level 3 2) x y =
         Image.Rect (x * 2) (y * 2) (Z.min 2 (3 - x * 2)) (Z.min 2 (2 - y * 2))) /\
    grid_area Demo.folder (Level 3 2) c r = 3 * 2 /\
    (forall x y x' y' i j,
       (x, y) ∈ addresses c r -> (x', y') ∈ addresses c r ->
       Image.in_rect (tile_rect Demo.folder (Level 3 2) x y) i j = true ->
       Image.in_rect (tile_rect Demo.folder (Level 3 2) x' y') i j = true ->
       (x, y) = (x', y')) /\
    (forall i j, 0 <= i < 3 -> 0 <= j < 2 ->
       exists x y, (x, y) ∈ addresses c r /\
                   Image.in_rect (tile_rect Demo.folder (Level 3 2) x y) i j = true).
Proof. apply (grid_partitions Demo.folder (Level 3 2)); simpl; lia. Defined.

(** A level 2^53 + 1 wide with tiles of 2^53: the division rounds to 1.0,
    so there is one column, and the last pixel column is in no tile. *)
Lemma grid_beyond_exact_range :
  exists self lvl,
    __init__ "http://host/scene/page_files" (2 ^ 53 + 1) 1 (2 ^ 53) "jpg" false = Ok self /\
    last (levels self) = Some lvl /\ lvl = Level (2 ^ 53 + 1) 1 /\
    grid self lvl = Ok (1, 1) /\
    ceil_div (width lvl) (tile_size self) = 2 /\
    grid_area self lvl 1 1 = 2 ^ 53 /\
    grid_area self lvl 1 1 <> width lvl * height lvl.
Proof.
  eexists _, _. split; [vm_compute; reflexivity|].
  split; [reflexivity|]. split; [reflexivity|]. by vm_compute.
Qed.

Lemma download_tile_ignores_status_witness :
  exists w',
    download_tile Demo.host_404 Demo.folder 1 Demo.cache 0 0 Demo.empty_world = Ok w' /\
    files w' !! tile_path Demo.folder Demo.cache 0 0 = Some Demo.not_found_page /\
    requests w' = [tile_url Demo.folder 1 0 0] /\
    exists_ (tile_path Demo.folder Demo.cache 0 0) w' = true.
Proof.
  apply (download_tile_ignores_status Demo.host_404 Demo.folder 1 Demo.cache 0 0
           Demo.empty_world {| status_code := 404; content := Demo.not_found_page |});
    reflexivity.
Defined.

(** With a host that answers 404 to every tile, [download] returns, the
    error pages are the cache files, and what stops the run is the
    decoder in [join_tiles]. *)
Lemma not_found_page_is_cached :
  exists w',
    download Demo.host_404 Demo.folder 1 Demo.cache Demo.empty_world = Ok w' /\
    files w' !! "/tmp/twinnerdl/page_LVL1/0_0.jpg" = Some Demo.not_found_page /\
    files w' !! "/tmp/twinnerdl/page_LVL1/1_0.jpg" = Some Demo.not_found_page /\
    join_tiles Demo.decoder Demo.folder 1 Demo.cache w' = Raised UnidentifiedImageError.
Proof.
  eexists. split; [vm_compute; reflexivity|]. by vm_compute.
Qed.

Lemma tile_written_in_place_witness :
  exists w1 w2,
    write_trace (tile_path Demo.folder Demo.cache 0 0) Demo.tile_bytes
      (World (files Demo.empty_world)
         (requests Demo.empty_world ++ [tile_url Demo.folder 1 0 0]))
      = [w1; w2] /\
    download_tile Demo.host Demo.folder 1 Demo.cache 0 0 Demo.empty_world = Ok w2 /\
    files w1 !! tile_path Demo.folder Demo.cache 0 0 = Some [] /\
    files w2 !! tile_path Demo.folder Demo.cache 0 0 = Some Demo.tile_bytes /\
    (forall q, q <> tile_path Demo.folder Demo.cache 0 0 ->
       files w1 !! q = files Demo.empty_world !! q /\
       files w2 !! q = files Demo.empty_world !! q) /\
    (force_download Demo.folder = false ->
       download_tile Demo.host Demo.folder 1 Demo.cache 0 0 w1 = Ok w1).
Proof.
  apply (tile_written_in_place Demo.host Demo.folder 1 Demo.cache 0 0
           Demo.empty_world {| status_code := 200; content := Demo.tile_bytes |}).
  - reflexivity.
  - reflexivity.
Defined.

(** The first tile step on an empty cache goes through two worlds.  A run
    stopped in the first of them, between [open] and [write], leaves an
    empty file at the tile's path, not the body; the next run takes it
    for the tile, sends no request, and the join cannot decode it. *)
Lemma interrupted_write_leaves_empty_file :
  exists w1 w2,
    write_trace "/tmp/twinnerdl/page_LVL1/0_0.jpg" Demo.tile_bytes
      (World ∅ [tile_url Demo.folder 1 0 0]) = [w1; w2] /\
    download_tile Demo.host Demo.folder 1 Demo.cache 0 0 Demo.empty_world = Ok w2 /\
    w1 <> w2 /\
    files w1 !! "/tmp/twinnerdl/page_LVL1/0_0.jpg" = Some [] /\
    Demo.tile_bytes <> [] /\
    download_tile Demo.host Demo.folder 1 Demo.cache 0 0 w1 = Ok w1 /\
    join_tiles Demo.decoder Demo.folder 1 Demo.cache w1 = Raised UnidentifiedImageError.
Proof.
  eexists _, _. split; [reflexivity|].
  split; [by vm_compute|].
  split.
  { intros Heq. apply (f_equal (fun w => files w !! "/tmp/twinnerdl/page_LVL1/0_0.jpg")) in Heq.
    vm_compute in Heq. discriminate Heq. }
  split; [by vm_compute|]. split; [done|].
  split; by vm_compute.
Qed.

Lemma download_tile_idempotent_witness :
  download_tile Demo.host Demo.folder 1 Demo.cache 0 0 Demo.cached_world
    = Ok Demo.cached_world /\
  exists w1,
    download_tile Demo.host Demo.folder 1 Demo.cache 0 0 Demo.empty_world = Ok w1 /\
    download_tile Demo.host Demo.folder 1 Demo.cache 0 0 w1 = Ok w1 /\
    requests w1 = requests Demo.empty_world ++ [tile_url Demo.folder 1 0 0] /\
    files w1 !! tile_path Demo.folder Demo.cache 0 0 = Some Demo.tile_bytes.
Proof.
  split.
  - apply (download_tile_idempotent Demo.host Demo.folder 1 Demo.cache 0 0
             Demo.cached_world); reflexivity.
  - apply (proj2 (download_tile_idempotent Demo.host Demo.folder 1 Demo.cache 0 0
                    Demo.empty_world eq_refl)
             {| status_code := 200; content := Demo.tile_bytes |}); reflexivity.
Defined.

Lemma force_download_overwrites_witness :
  exists w',
    download_tile Demo.host Demo.forced 1 Demo.cache 0 0 Demo.cached_world = Ok w' /\
    requests w' = requests Demo.cached_world ++ [tile_url Demo.forced 1 0 0] /\
    files w' !! tile_path Demo.forced Demo.cache 0 0 = Some Demo.tile_bytes.
Proof.
  apply (force_download_overwrites Demo.host Demo.forced 1 Demo.cache 0 0
           Demo.cached_world Demo.stale_bytes
           {| status_code := 200; content := Demo.tile_bytes |}); reflexivity.
Defined.

Lemma join_tiles_size_witness :
  exists im,
    join_tiles Demo.decoder Demo.folder 1 Demo.cache Demo.cached_world = Ok im /\
    Image.size im = (3, 2).
Proof.
  apply (proj2 (join_tiles_size Demo.decoder Demo.folder 1 Demo.cache
                  Demo.cached_world (Level 3 2) eq_refl) 2 1);
    [reflexivity|simpl; lia|simpl; lia|].
  intros x y Hin. apply elem_of_addresses in Hin.
  assert ((x = 0 \/ x = 1) /\ y = 0) as [[-> | ->] ->] by lia;
    eexists _, _; split; reflexivity.
Defined.

Lemma download_fills_grid_witness :
  exists w',
    download Demo.host Demo.folder 1 Demo.cache Demo.empty_world = Ok w' /\
    exists lvl c r,
      index (levels Demo.folder) 1 = Ok lvl /\
      grid Demo.folder lvl = Ok (c, r) /\
      (forall x y, 0 <= x < c -> 0 <= y < r ->
         is_Some (files w' !! tile_path Demo.folder Demo.cache x y)) /\
      (forall decode,
         join_tiles decode Demo.folder 1 Demo.cache w' <> Raised FileNotFoundError).
Proof.
  eexists. split; [vm_compute; reflexivity|].
  apply (download_fills_grid Demo.host Demo.folder 1 Demo.cache Demo.empty_world).
  vm_compute. reflexivity.
Defined.

End Instances.


(** ** More on the level calculator *)

Section LevelExtras.

Import Folder.

Lemma int_mul_half_raises n e : int_mul_half n = Raised e -> e = OverflowError.
Proof.
  unfold int_mul_half, int_to_float. destruct (round_signed n 1); simpl; [done|].
  by intros [= <-].
Qed.

Lemma int_mul_half_fuel n : int_mul_half n <> OutOfFuel.
Proof. unfold int_mul_half, int_to_float. by destruct (round_signed n 1). Qed.

Lemma calculate_levels_raises fuel w h acc e :
  calculate_levels fuel w h acc = Raised e -> e = OverflowError.
Proof.
  revert w h acc. induction fuel as [|fuel IH]; intros w h acc; simpl.
  - by destruct (_ || _).
  - destruct (_ || _); [|done].
    destruct (int_mul_half w) as [fw|e'|] eqn:Ew; simpl.
    + destruct (int_mul_half h) as [fh|e'|] eqn:Eh; simpl.
      * apply IH.
      * intros [= <-]. by apply (int_mul_half_raises h).
      * done.
    + intros [= <-]. by apply (int_mul_half_raises w).
    + done.
Qed.

(** An [int] of 2^1024 or more has no float. *)
Lemma int_mul_half_overflow n : 2 ^ 1024 <= n -> int_mul_half n = Raised OverflowError.
Proof.
  intros Hn. unfold int_mul_half, int_to_float, round_signed.
  assert (0 < n) as Hpos by lia.
  destruct (n =? 0) eqn:E0; [lia|].
  rewrite Z.abs_eq, round_ratio_int by lia. cbv zeta.
  assert (1024 <= Z.log2 n) as Hl by (apply Z.log2_le_pow2; lia).
  destruct (0 <=? Z.log2 n - 52) eqn:Ee; [|lia].
  remember (Z.log2 n - 52) as e eqn:He.
  assert (0 < 2 ^ e) as Hpe by (apply Z.pow_pos_nonneg; lia).
  assert (2 ^ 52 <= n / 2 ^ e) as Hq.
  { apply Z.div_le_lower_bound; [done|].
    rewrite <- Z.pow_add_r by lia. replace (e + 52) with (Z.log2 n) by lia.
    by apply Z.log2_spec. }
  pose proof (rne_lower n (2 ^ e) ltac:(lia) Hpe) as Hm.
  assert (52 <= Z.log2 (rne n (2 ^ e))) as Hlm by (apply Z.log2_le_pow2; lia).
  destruct (1024 <=? Z.log2 (rne n (2 ^ e)) + e) eqn:Eo; [done|lia].
Qed.

(** X1: the level loop ends on every pair of [int]s, and if [__init__]
    raises, it is [OverflowError]. *)
Theorem init_returns_or_overflows p w h ts fmt force :
  __init__ p w h ts fmt force <> OutOfFuel /\
  forall e, __init__ p w h ts fmt force = Raised e -> e = OverflowError.
Proof.
  split; [apply init_total|].
  intros e. unfold __init__.
  destruct (calculate_levels _ _ _ _) as [ls|e'|] eqn:E; simpl; [done| |done].
  intros [= <-]. by apply calculate_levels_raises in E.
Qed.

(** X2: a base dimension of 2^1024 or more makes [__init__] raise
    [OverflowError]: it has no float to halve. *)
Theorem init_overflows p w h ts fmt force :
  2 ^ 1024 <= w \/ 2 ^ 1024 <= h ->
  __init__ p w h ts fmt force = Raised OverflowError.
Proof.
  intros Hbig.
  pose proof (init_total p w h ts fmt force) as Htot.
  unfold __init__ in *.
  destruct (calculate_levels _ _ _ _) as [ls|e|] eqn:E; simpl in *; [|by apply calculate_levels_raises in E as ->|done].
  exfalso. destruct (rounds w h) as [|fuel]; simpl in E.
  - destruct ((1 <? w) || (1 <? h)) eqn:Ec; [done|]. lia.
  - destruct ((1 <? w) || (1 <? h)) eqn:Ec; [|lia].
    destruct Hbig as [Hw|Hh].
    + by rewrite (int_mul_half_overflow w Hw) in E.
    + rewrite (int_mul_half_overflow h Hh) in E.
      by destruct (int_mul_half w).
Qed.

Lemma ceil_div_unique a b q : 0 < b -> (q - 1) * b < a <= q * b -> ceil_div a b = q.
Proof. intros Hb Hq. pose proof (ceil_div_spec a b Hb). nia. Qed.

Lemma ceil_div_1 a : ceil_div a 1 = a.
Proof. apply ceil_div_unique; lia. Qed.

(** Halving twice is quartering, and so on. *)
Lemma ceil_div_ceil_div a b c :
  0 < b -> 0 < c -> ceil_div (ceil_div a b) c = ceil_div a (b * c).
Proof.
  intros Hb Hc. symmetry. apply ceil_div_unique; [nia|].
  pose proof (ceil_div_spec a b Hb).
  pose proof (ceil_div_spec (ceil_div a b) c Hc). nia.
Qed.

Lemma log2_up_ceil_half w : 2 <= w -> Z.log2_up (ceil_div w 2) = Z.log2_up w - 1.
Proof.
  intros Hw. pose proof (Z.log2_up_spec w ltac:(lia)) as [Hlo Hhi].
  pose proof (Z.log2_up_pos w ltac:(lia)) as Hk.
  pose proof (ceil_div_spec w 2 ltac:(lia)) as Hc.
  remember (Z.log2_up w) as k eqn:Ek. clear Ek.
  replace (Z.pred k) with (k - 1) in Hlo by lia.
  assert (2 ^ k = 2 * 2 ^ (k - 1)) as Hpk.
  { rewrite <- Z.pow_succ_r by lia. f_equal. lia. }
  destruct (decide (k = 1)) as [->|Hk1].
  - simpl in *. assert (ceil_div w 2 = 1) as -> by lia. done.
  - assert (2 ^ (k - 1) = 2 * 2 ^ (k - 2)) as Hpk1.
    { rewrite <- Z.pow_succ_r by lia. f_equal. lia. }
    apply Z.log2_up_unique; [lia|].
    replace (Z.pred (k - 1)) with (k - 2) by lia. lia.
Qed.

Lemma halving_length w h ls :
  1 <= w -> 1 <= h -> halving w h ls ->
  Z.of_nat (length ls) = Z.max (Z.log2_up w) (Z.log2_up h).
Proof.
  revert w h. induction ls as [|l ls IH]; intros w h Hw Hh Hch.
  - destruct Hch. rewrite !log2_up_small by lia. done.
  - destruct Hch as (Hgt & _ & Hch).
    pose proof (ceil_div_spec w 2 ltac:(lia)).
    pose proof (ceil_div_spec h 2 ltac:(lia)).
    rewrite length_cons, Nat2Z.inj_succ,
      (IH (ceil_div w 2) (ceil_div h 2) ltac:(lia) ltac:(lia) Hch).
    pose proof (Z.log2_up_nonneg w). pose proof (Z.log2_up_nonneg h).
    destruct (decide (2 <= w)) as [H2w|H1w];
      destruct (decide (2 <= h)) as [H2h|H1h]; [| | |lia].
    + rewrite !log2_up_ceil_half by done. lia.
    + assert (h = 1) as -> by lia.
      rewrite (log2_up_ceil_half w) by done. change (ceil_div 1 2) with 1.
      pose proof (Z.log2_up_pos w ltac:(lia)). change (Z.log2_up 1) with 0. lia.
    + assert (w = 1) as -> by lia.
      rewrite (log2_up_ceil_half h) by done. change (ceil_div 1 2) with 1.
      pose proof (Z.log2_up_pos h ltac:(lia)). change (Z.log2_up 1) with 0. lia.
Qed.

Lemma halving_lookup w h ls (j : nat) a :
  halving w h ls -> ls !! j = Some a ->
  a = Level (ceil_div w (2 ^ Z.of_nat j)) (ceil_div h (2 ^ Z.of_nat j)).
Proof.
  revert w h j. induction ls as [|l ls IH]; intros w h j Hch Hj; [done|].
  destruct Hch as (_ & -> & Hch). destruct j as [|j].
  - injection Hj as <-. by rewrite !ceil_div_1.
  - simpl in Hj. rewrite (IH _ _ j Hch Hj).
    assert (0 < 2 ^ Z.of_nat j) by (apply Z.pow_pos_nonneg; lia).
    rewrite !ceil_div_ceil_div by lia.
    rewrite Nat2Z.inj_succ, Z.pow_succ_r by lia. done.
Qed.

(** X3: for base dimensions from 1 to 2^53 there are exactly
    [log2_up (max W H)] levels. *)
Theorem levels_count p W H ts fmt force :
  1 <= W <= 2 ^ 53 -> 1 <= H <= 2 ^ 53 ->
  exists self,
    __init__ p W H ts fmt force = Ok self /\
    Z.of_nat (length (levels self)) = Z.log2_up (Z.max W H).
Proof.
  intros HW HH.
  destruct (init_exact p W H ts fmt force) as (ls & Hinit & Hch); [lia..|].
  eexists. split; [exact Hinit|]. simpl.
  pose proof (halving_length W H ls ltac:(lia) ltac:(lia) Hch) as Hlen.
  rewrite length_reverse, Hlen.
  destruct (Z.le_ge_cases W H) as [Hle|Hle].
  - pose proof (Z.log2_up_le_mono W H Hle). rewrite (Z.max_r W H) by done. lia.
  - pose proof (Z.log2_up_le_mono H W Hle). rewrite (Z.max_l W H) by done. lia.
Qed.

(** X4: for base dimensions from 1 to 2^53, level [i] of [n] is the base
    size divided by [2 ^ (n - 1 - i)], rounded up. *)
Theorem levels_closed_form p W H ts fmt force :
  1 <= W <= 2 ^ 53 -> 1 <= H <= 2 ^ 53 ->
  exists self,
    __init__ p W H ts fmt force = Ok self /\
    forall (i : nat) a,
      levels self !! i = Some a ->
      a = Level (ceil_div W (2 ^ (Z.of_nat (length (levels self)) - 1 - Z.of_nat i)))
                (ceil_div H (2 ^ (Z.of_nat (length (levels self)) - 1 - Z.of_nat i))).
Proof.
  intros HW HH.
  destruct (init_exact p W H ts fmt force) as (ls & Hinit & Hch); [lia..|].
  eexists. split; [exact Hinit|]. simpl. intros i a Hi.
  apply reverse_lookup_Some in Hi as [Hi Hlt].
  rewrite (halving_lookup _ _ _ _ _ Hch Hi), length_reverse.
  do 3 f_equal; lia.
Qed.

End LevelExtras.

(** ** More on the cache, the fetcher and the compositor *)

Section LoopExtras.

Context {A S : Type}.
Implicit Types (l : list A) (body : A -> S -> result S).

Lemma for_each_fixed l body s :
  (forall a, a ∈ l -> body a s = Ok s) -> for_each l body s = Ok s.
Proof.
  induction l as [|a l IH]; intros Hb; simpl; [done|].
  rewrite Hb by (by left). simpl. apply IH. intros b Hin. apply Hb. by right.
Qed.

Lemma for_each_ran l body s s' :
  for_each l body s = Ok s' ->
  forall a, a ∈ l -> exists t t', body a t = Ok t'.
Proof.
  revert s. induction l as [|b l IH]; intros s Hf a Hin.
  - by apply elem_of_nil in Hin.
  - simpl in Hf. destruct (body b s) as [s1| |] eqn:E; simpl in Hf; [|done..].
    apply elem_of_cons in Hin as [->|Hin]; [by exists s, s1|].
    by apply (IH s1).
Qed.

Lemma for_each_establish_inv (I : S -> Prop) (Q : A -> S -> Prop) l body s s' :
  (forall a s s', a ∈ l -> body a s = Ok s' -> I s -> I s') ->
  (forall a s s', a ∈ l -> body a s = Ok s' -> I s -> Q a s') ->
  (forall a b s s', b ∈ l -> body b s = Ok s' -> I s -> Q a s -> Q a s') ->
  for_each l body s = Ok s' -> I s -> forall a, a ∈ l -> Q a s'.
Proof.
  revert s. induction l as [|b l IH]; intros s HI He Hk Hf Hs a Hin.
  - by apply elem_of_nil in Hin.
  - simpl in Hf. destruct (body b s) as [s1| |] eqn:E; simpl in Hf; [|done..].
    assert (I s1) as Hs1 by (apply (HI b s s1); [by left|done..]).
    apply elem_of_cons in Hin as [->|Hin].
    + assert (I s' /\ Q b s') as [_ HQ]; [|done].
      refine (for_each_preserve (fun t => I t /\ Q b t) l body s1 s' _ Hf _).
      * intros c t t' Hc Hb [Ht HQt]. split.
        -- apply (HI c t t'); [by right|done..].
        -- apply (Hk b c t t'); [by right|done..].
      * split; [done|]. apply (He b s s1); [by left|done..].
    + apply (IH s1); [| | |done..].
      * intros c t t' Hc. apply HI. by right.
      * intros c t t' Hc. apply He. by right.
      * intros c d t t' Hd. apply Hk. by right.
Qed.

End LoopExtras.

Section EngineExtras.

Import Folder.

Variable remote : list string -> string -> option Response.
Variable decode : bytes -> option Image.t.

Lemma download_tile_steps self i folder x y w w' :
  download_tile remote self i folder x y w = Ok w' ->
  w' = w /\ force_download self = false /\
    is_Some (files w !! tile_path self folder x y) \/
  (force_download self = false -> files w !! tile_path self folder x y = None) /\
    exists r, w' = World (<[tile_path self folder x y := content r]> (files w))
                         (requests w ++ [tile_url self i x y]).
Proof.
  unfold download_tile, session_get. intros Hd.
  destruct (negb _ || _) eqn:Hc.
  - right. split.
    + intros Hf. rewrite Hf, orb_false_r in Hc. apply negb_true_iff in Hc.
      unfold exists_ in Hc. apply bool_decide_eq_false in Hc.
      by apply eq_None_not_Some.
    + destruct (remote _ _) as [r|]; [|done]. simpl in Hd.
      rewrite write_overwrites in Hd. injection Hd as <-. by exists r.
  - left. injection Hd as <-. apply orb_false_iff in Hc as [Hc Hf].
    split_and!; [done..|]. apply negb_false_iff in Hc. by apply exists_true.
Qed.

Lemma download_tile_raises self i folder x y w e :
  download_tile remote self i folder x y w = Raised e -> e = ConnectionError.
Proof.
  unfold download_tile, session_get. destruct (negb _ || _); [|done].
  destruct (remote _ _); simpl; [done|]. by intros [= <-].
Qed.

(** X5: a second [download] of the same level without [force_download]
    sends no request and changes no file. *)
Theorem download_rerun_noop self i folder w w' :
  force_download self = false ->
  download remote self i folder w = Ok w' ->
  download remote self i folder w' = Ok w'.
Proof.
  intros Hf Hd. unfold download in *.
  destruct (index (levels self) i) as [lvl| |] eqn:Hi; simpl in *; [|done..].
  destruct (truediv (width lvl) _) as [fc| |] eqn:Hc; simpl in *; [|done..].
  destruct (truediv (height lvl) _) as [fr| |] eqn:Hr; simpl in *; [|done..].
  pose proof (download_loops_fill remote self i folder _ _ w w' Hd) as Hfill.
  apply for_each_fixed. intros x Hx. apply for_each_fixed. intros y Hy.
  apply elem_of_range in Hx, Hy.
  apply download_tile_hit; [|done]. apply exists_true. by apply Hfill.
Qed.

(** X6: [download] changes files only at the tile paths of the level's
    grid, and without [force_download] it only creates files: one that was
    there before is left as it was. *)
Theorem download_frame self i folder w w' :
  download remote self i folder w = Ok w' ->
  exists lvl c r,
    index (levels self) i = Ok lvl /\ grid self lvl = Ok (c, r) /\
    forall p,
      files w' !! p = files w !! p \/
      exists x y, (x, y) ∈ addresses c r /\ p = tile_path self folder x y /\
                  (force_download self = false -> files w !! p = None).
Proof.
  unfold download. intros Hd.
  destruct (index (levels self) i) as [lvl| |] eqn:Hi; simpl in *; [|done..].
  destruct (truediv (width lvl) _) as [fc| |] eqn:Hc; simpl in *; [|done..].
  destruct (truediv (height lvl) _) as [fr| |] eqn:Hr; simpl in *; [|done..].
  exists lvl, (math_ceil fc), (math_ceil fr). split; [done|].
  split; [unfold grid; by rewrite Hc, Hr|]. intros p.
  set (P := fun t : world =>
    files t !! p = files w !! p \/
    exists x y, (x, y) ∈ addresses (math_ceil fc) (math_ceil fr) /\
                p = tile_path self folder x y /\
                (force_download self = false -> files w !! p = None)).
  refine (for_each_preserve P _ _ w w' _ Hd _); [|by left].
  intros x t t' Hx Hin HP.
  refine (for_each_preserve P _ _ t t' _ Hin HP).
  intros y u u' Hy Hb HPu.
  apply download_tile_steps in Hb as [(-> & _ & _)|(Hnone & rsp & ->)]; [done|].
  unfold P in *. simpl.
  destruct (decide (tile_path self folder x y = p)) as [<-|Hne].
  - right. exists x, y. split; [by apply elem_of_addresses; rewrite <- !elem_of_range|].
    split; [done|]. intros Hf. destruct HPu as [<-|(x' & y' & _ & _ & Hw)]; auto.
  - destruct HPu as [HPu|HPu]; [left|by right]. by rewrite lookup_insert_ne.
Qed.

Lemma inner_requests self i folder x l w w' :
  for_each l (fun y => download_tile remote self i folder x y) w = Ok w' ->
  exists sent,
    sent `sublist_of` (y ← l; [(x, y)]) /\
    requests w' = requests w ++ ((fun a => tile_url self i a.1 a.2) <$> sent) /\
    (force_download self = true -> sent = (y ← l; [(x, y)])).
Proof.
  revert w. induction l as [|y l IH]; intros w Hf; simpl in Hf.
  - injection Hf as <-. exists []. by rewrite app_nil_r.
  - destruct (download_tile _ _ _ _ _ _ w) as [w1| |] eqn:E; simpl in Hf; [|done..].
    destruct (IH w1 Hf) as (sent & Hsub & Hreq & Hforce).
    rewrite bind_cons. simpl.
    apply download_tile_steps in E as [(-> & Hnf & _)|(_ & rsp & ->)].
    + exists sent. split_and!; [by constructor|done|]. intros Hf'. congruence.
    + exists ((x, y) :: sent). split_and!.
      * by constructor.
      * rewrite Hreq. simpl. by rewrite <- app_assoc.
      * intros Hf'. by rewrite Hforce.
Qed.

(** X7: the requests of one [download] are GETs of tile urls of the
    level's grid, at most one per tile, in the order of the loops ([x]
    outside, [y] inside); with [force_download] every tile is requested. *)
Theorem download_requests self i folder w w' :
  download remote self i folder w = Ok w' ->
  exists lvl c r sent,
    index (levels self) i = Ok lvl /\ grid self lvl = Ok (c, r) /\
    sent `sublist_of` addresses c r /\
    requests w' = requests w ++ ((fun a => tile_url self i a.1 a.2) <$> sent) /\
    (force_download self = true -> sent = addresses c r).
Proof.
  unfold download. intros Hd.
  destruct (index (levels self) i) as [lvl| |] eqn:Hi; simpl in *; [|done..].
  destruct (truediv (width lvl) _) as [fc| |] eqn:Hc; simpl in *; [|done..].
  destruct (truediv (height lvl) _) as [fr| |] eqn:Hr; simpl in *; [|done..].
  exists lvl, (math_ceil fc), (math_ceil fr).
  assert (forall l t t',
    for_each l (fun x => for_each (range (math_ceil fr))
      (fun y => download_tile remote self i folder x y)) t = Ok t' ->
    exists sent,
      sent `sublist_of` (x ← l; y ← range (math_ceil fr); [(x, y)]) /\
      requests t' = requests t ++ ((fun a => tile_url self i a.1 a.2) <$> sent) /\
      (force_download self = true ->
         sent = (x ← l; y ← range (math_ceil fr); [(x, y)]))) as Hgen.
  { induction l as [|x l IH]; intros t t' Hf; simpl in Hf.
    - injection Hf as <-. exists []. by rewrite app_nil_r.
    - destruct (for_each (range _) _ t) as [t1| |] eqn:E; simpl in Hf; [|done..].
      apply inner_requests in E as (s1 & Hsub1 & Hreq1 & Hforce1).
      destruct (IH t1 t' Hf) as (s2 & Hsub2 & Hreq2 & Hforce2).
      exists (s1 ++ s2). rewrite bind_cons. split_and!.
      + by apply sublist_app.
      + by rewrite Hreq2, Hreq1, fmap_app, app_assoc.
      + intros Hf'. by rewrite Hforce1, Hforce2. }
  destruct (Hgen _ _ _ Hd) as (sent & Hsub & Hreq & Hforce).
  exists sent. split_and!; [done| |done..].
  unfold grid. by rewrite Hc, Hr.
Qed.

Lemma index_in_range {T} (l : list T) i :
  - Z.of_nat (length l) <= i < Z.of_nat (length l) ->
  exists a, index l i = Ok a /\
            l !! Z.to_nat (if i <? 0 then i + Z.of_nat (length l) else i) = Some a.
Proof.
  intros Hi. unfold index.
  set (j := if i <? 0 then i + Z.of_nat (length l) else i).
  assert (0 <= j < Z.of_nat (length l)) as Hj.
  { subst j. destruct (i <? 0) eqn:E; lia. }
  destruct ((j <? 0) || (Z.of_nat (length l) <=? j)) eqn:E; [lia|].
  destruct (l !! Z.to_nat j) as [a|] eqn:El; [by exists a|].
  apply lookup_ge_None in El. lia.
Qed.

Lemma index_out_of_range {T} (l : list T) i :
  i < - Z.of_nat (length l) \/ Z.of_nat (length l) <= i ->
  index l i = Raised IndexError.
Proof.
  intros Hi. unfold index.
  destruct (i <? 0) eqn:E0;
    destruct ((_ <? 0) || (Z.of_nat (length l) <=? _)) eqn:E; done || lia.
Qed.

(** X8: [download] raises [IndexError] exactly when the level index is
    outside [-len(levels), len(levels)). *)
Theorem download_index_error self i folder w :
  download remote self i folder w = Raised IndexError <->
  (i < - Z.of_nat (length (levels self)) \/ Z.of_nat (length (levels self)) <= i).
Proof.
  split.
  - intros Hd.
    destruct (decide (- Z.of_nat (length (levels self)) <= i
                      < Z.of_nat (length (levels self)))) as [Hin|Hout]; [|lia].
    exfalso. destruct (index_in_range (levels self) i Hin) as (lvl & Hi & _).
    unfold download in Hd. rewrite Hi in Hd. simpl in Hd.
    unfold truediv in Hd.
    destruct (tile_size self =? 0); [done|].
    destruct (round_signed (width lvl) _); simpl in Hd; [|done].
    destruct (round_signed (height lvl) _); simpl in Hd; [|done].
    apply for_each_raised in Hd as (x & t & _ & Hd).
    apply for_each_raised in Hd as (y & u & _ & Hd).
    by apply download_tile_raises in Hd.
  - intros Hout. unfold download. by rewrite index_out_of_range.
Qed.

(** X9: [join_tiles] returns an image only if every tile of the level's
    grid has a file that decodes: a hole is never left black. *)
Theorem join_tiles_needs_every_tile self i folder w im :
  join_tiles decode self i folder w = Ok im ->
  exists lvl c r,
    index (levels self) i = Ok lvl /\ grid self lvl = Ok (c, r) /\
    forall x y, (x, y) ∈ addresses c r ->
      exists blob src, files w !! tile_path self folder x y = Some blob /\
                       decode blob = Some src.
Proof.
  unfold join_tiles. intros Hj.
  destruct (index (levels self) i) as [lvl| |] eqn:Hi; simpl in *; [|done..].
  destruct (truediv (width lvl) _) as [fc| |] eqn:Hc; simpl in *; [|done..].
  destruct (truediv (height lvl) _) as [fr| |] eqn:Hr; simpl in *; [|done..].
  destruct (Image.new _) as [canvas| |]; simpl in *; [|done..].
  exists lvl, (math_ceil fc), (math_ceil fr). split; [done|].
  split; [unfold grid; by rewrite Hc, Hr|].
  intros x y Hin. apply elem_of_addresses in Hin as [Hx Hy].
  apply elem_of_range in Hx, Hy.
  destruct (for_each_ran _ _ _ _ Hj x Hx) as (t & t' & Hx').
  destruct (for_each_ran _ _ _ _ Hx' y Hy) as (u & u' & Hy').
  unfold join_tile, image_open in Hy'.
  destruct (files w !! tile_path self folder x y) as [blob|]; [|done].
  destruct (decode blob) as [src|] eqn:Hd; [|done].
  by exists blob, src.
Qed.

End EngineExtras.

(** ** What [join_tiles] puts at each pixel *)

Section JoinPixels.

Import Folder.

Variable decode : bytes -> option Image.t.
Variables (self : Folder.t) (folder : string) (w : world) (lvl : level).
Variables (c r : Z) (tile : Z -> Z -> Image.t).

Hypothesis tile_size_pos : 0 < tile_size self.
Hypothesis tiles_cached :
  forall x y, (x, y) ∈ addresses c r ->
    exists blob, files w !! tile_path self folder x y = Some blob /\
                 decode blob = Some (tile x y).
Hypothesis tiles_fit :
  forall x y, (x, y) ∈ addresses c r ->
    (Image.size (tile x y)).1 <= tile_size self /\
    (Image.size (tile x y)).2 <= tile_size self.

(** The pixel looked at: offset [(px, py)] in tile [(x0, y0)]. *)
Variables (x0 y0 px py : Z).
Hypothesis in_grid : (x0, y0) ∈ addresses c r.
Hypothesis in_tile : 0 <= px < tile_size self /\ 0 <= py < tile_size self.
Hypothesis in_level :
  x0 * tile_size self + px < width lvl /\ y0 * tile_size self + py < height lvl.

Let pix (t : Image.t) : Image.rgb :=
  Image.getpixel t (x0 * tile_size self + px) (y0 * tile_size self + py).

Let inside : bool :=
  (px <? (Image.size (tile x0 y0)).1) && (py <? (Image.size (tile x0 y0)).2).

Let target : Image.rgb :=
  if inside then Image.getpixel (tile x0 y0) px py else (0, 0, 0).

Lemma join_tile_pixel x y t t' :
  (x, y) ∈ addresses c r ->
  Image.size t = (width lvl, height lvl) ->
  join_tile decode self folder w x y t = Ok t' ->
  Image.size t' = (width lvl, height lvl) /\
  (pix t = target -> pix t' = target) /\
  (x = x0 -> y = y0 -> inside = true -> pix t' = target).
Proof.
  intros Hin Hsz Hj.
  destruct (tiles_cached x y Hin) as (blob & Hb & Hd).
  destruct (tiles_fit x y Hin) as [Hfw Hfh].
  unfold join_tile, image_open in Hj. rewrite Hb, Hd in Hj. simpl in Hj.
  injection Hj as <-. split; [done|].
  apply elem_of_addresses in Hin as [Hx Hy].
  pose proof in_grid as Hg. apply elem_of_addresses in Hg as [Hx0 Hy0].
  destruct in_tile as [Hpx Hpy]. destruct in_level as [Hlx Hly].
  unfold pix, Image.paste. simpl. rewrite Hsz.
  unfold Image.in_rect, Image.paste_region. simpl.
  destruct (Image.size (tile x y)) as [sw sh] eqn:Es. simpl in *.
  split.
  - intros Ht.
    destruct (decide (x = x0 /\ y = y0)) as [[-> ->]|Hne].
    + unfold target, inside in *. rewrite Es in *. simpl in *.
      destruct (px <? sw) eqn:E1; destruct (py <? sh) eqn:E2; simpl in *;
        repeat match goal with
               | |- context [if ?b then _ else _] =>
                   let E := fresh "E" in destruct b eqn:E
               end; try done;
        try (replace (x0 * tile_size self + px - x0 * tile_size self) with px by lia;
             replace (y0 * tile_size self + py - y0 * tile_size self) with py by lia;
             done);
        exfalso; rewrite ?andb_true_iff, ?andb_false_iff in *; lia.
    + match goal with
      | |- context [if ?b then _ else _] =>
          let E := fresh "E" in destruct b eqn:E
      end; [|done].
      exfalso. rewrite !andb_true_iff in *. nia.
  - intros -> -> Hins. unfold target. rewrite Hins.
    unfold inside in Hins. rewrite Es in Hins. simpl in Hins.
    apply andb_true_iff in Hins as [H1 H2].
    match goal with
    | |- context [if ?b then _ else _] =>
        let E := fresh "E" in destruct b eqn:E
    end.
    + replace (x0 * tile_size self + px - x0 * tile_size self) with px by lia.
      replace (y0 * tile_size self + py - y0 * tile_size self) with py by lia.
      done.
    + exfalso. rewrite !andb_false_iff in *. lia.
Qed.

Lemma join_row_pixel x t t' :
  x ∈ range c ->
  Image.size t = (width lvl, height lvl) ->
  for_each (range r) (fun y => join_tile decode self folder w x y) t = Ok t' ->
  Image.size t' = (width lvl, height lvl) /\
  (pix t = target -> pix t' = target) /\
  (x = x0 -> inside = true -> pix t' = target).
Proof.
  intros Hx Hsz Hf.
  assert (forall y, y ∈ range r -> (x, y) ∈ addresses c r) as Hadd.
  { intros y Hy. apply elem_of_addresses. by rewrite <- !elem_of_range. }
  split_and!.
  - refine (for_each_preserve
              (fun u => Image.size u = (width lvl, height lvl)) _ _ t t' _ Hf Hsz).
    intros y u u' Hy Hb Hu. by apply (join_tile_pixel x y u u' (Hadd y Hy) Hu Hb).
  - intros Ht.
    assert (Image.size t' = (width lvl, height lvl) /\ pix t' = target)
      as [_ ?]; [|done].
    refine (for_each_preserve
              (fun u => Image.size u = (width lvl, height lvl) /\ pix u = target)
              _ _ t t' _ Hf (conj Hsz Ht)).
    intros y u u' Hy Hb [Hu Hp].
    destruct (join_tile_pixel x y u u' (Hadd y Hy) Hu Hb) as (? & Hk & _). auto.
  - intros -> Hins.
    pose proof in_grid as Hg. apply elem_of_addresses in Hg as [_ Hy0].
    apply elem_of_range in Hy0.
    refine (for_each_establish_inv
              (fun u => Image.size u = (width lvl, height lvl))
              (fun y u => y = y0 -> pix u = target)
              _ _ t t' _ _ _ Hf Hsz y0 Hy0 eq_refl).
    + intros y u u' Hy Hb Hu. by apply (join_tile_pixel x0 y u u' (Hadd y Hy) Hu Hb).
    + intros y u u' Hy Hb Hu ->.
      by apply (join_tile_pixel x0 y0 u u' (Hadd y0 Hy) Hu Hb).
    + intros y y' u u' Hy Hb Hu HQ Hyy.
      destruct (join_tile_pixel x0 y' u u' (Hadd y' Hy) Hu Hb) as (_ & Hk & _).
      auto.
Qed.

Lemma join_loops_pixel t t' :
  Image.size t = (width lvl, height lvl) ->
  (inside = false -> pix t = target) ->
  for_each (range c) (fun x =>
    for_each (range r) (fun y => join_tile decode self folder w x y)) t = Ok t' ->
  pix t' = target.
Proof.
  intros Hsz Hinit Hf.
  pose proof in_grid as Hg. apply elem_of_addresses in Hg as [Hx0 _].
  apply elem_of_range in Hx0.
  assert (inside = true \/ inside = false) as [Hins|Hins]
    by (clear; destruct inside; auto).
  - refine (for_each_establish_inv
              (fun u => Image.size u = (width lvl, height lvl))
              (fun x u => x = x0 -> pix u = target)
              _ _ t t' _ _ _ Hf Hsz x0 Hx0 eq_refl).
    + intros x u u' Hx Hb Hu. by apply (join_row_pixel x u u' Hx Hu Hb).
    + intros x u u' Hx Hb Hu ->.
      by apply (join_row_pixel x0 u u' Hx Hu Hb).
    + intros x x' u u' Hx Hb Hu HQ Hxx.
      destruct (join_row_pixel x' u u' Hx Hu Hb) as (_ & Hk & _). auto.
  - assert (Image.size t' = (width lvl, height lvl) /\ pix t' = target)
      as [_ ?]; [|done].
    refine (for_each_preserve
              (fun u => Image.size u = (width lvl, height lvl) /\ pix u = target)
              _ _ t t' _ Hf (conj Hsz (Hinit Hins))).
    intros x u u' Hx Hb [Hu Hp].
    destruct (join_row_pixel x u u' Hx Hu Hb) as (? & Hk & _). auto.
Qed.

End JoinPixels.


(** X10: when every tile of the grid has a cached file that decodes to an
    image no larger than a tile, the joined image shows, at offset
    [(px, py)] of tile [(x, y)], that tile's pixel [(px, py)] where the
    tile has one, and black where it has none. *)
Theorem join_tiles_pixels decode self i folder w lvl c r (tile : Z -> Z -> Image.t) :
  0 < Folder.tile_size self ->
  index (Folder.levels self) i = Ok lvl ->
  Folder.grid self lvl = Ok (c, r) ->
  0 <= width lvl -> 0 <= height lvl ->
  (forall x y, (x, y) ∈ Folder.addresses c r ->
     exists blob, files w !! Folder.tile_path self folder x y = Some blob /\
                  decode blob = Some (tile x y)) ->
  (forall x y, (x, y) ∈ Folder.addresses c r ->
     (Image.size (tile x y)).1 <= Folder.tile_size self /\
     (Image.size (tile x y)).2 <= Folder.tile_size self) ->
  exists im,
    Folder.join_tiles decode self i folder w = Ok im /\
    forall x y px py,
      (x, y) ∈ Folder.addresses c r ->
      0 <= px < Folder.tile_size self /\ 0 <= py < Folder.tile_size self ->
      x * Folder.tile_size self + px < width lvl /\
      y * Folder.tile_size self + py < height lvl ->
      Image.getpixel im (x * Folder.tile_size self + px)
                        (y * Folder.tile_size self + py) =
        if (px <? (Image.size (tile x y)).1) && (py <? (Image.size (tile x y)).2)
        then Image.getpixel (tile x y) px py
        else (0, 0, 0).
Proof.
  intros Hts Hi Hg Hw Hh Hcached Hfit.
  unfold Folder.join_tiles. rewrite Hi. simpl. unfold Folder.grid in Hg.
  destruct (truediv (width lvl) _) as [fc| |]; simpl in *; [|done..].
  destruct (truediv (height lvl) _) as [fr| |]; simpl in *; [|done..].
  injection Hg as <- <-. unfold Image.new. simpl.
  destruct ((width lvl <? 0) || (height lvl <? 0)) eqn:E; [lia|]. simpl.
  set (canvas := {| Image.size := (width lvl, height lvl);
                    Image.getpixel := fun _ _ => (0, 0, 0) |}).
  destruct (for_each_returns (range (math_ceil fc))
              (fun x => for_each (range (math_ceil fr))
                 (fun y => Folder.join_tile decode self folder w x y)) canvas)
    as [im Him].
  { intros x t Hx. apply for_each_returns. intros y u Hy.
    destruct (Hcached x y) as (blob & Hb & Hd).
    { apply elem_of_addresses. by rewrite <- !elem_of_range. }
    unfold Folder.join_tile, Folder.image_open. rewrite Hb, Hd. simpl.
    by eexists. }
  exists im. split; [done|]. intros x y px py Hin Htile Hlevel.
  apply (join_loops_pixel decode self folder w lvl _ _ tile Hts Hcached Hfit
           x y px py Hin Htile Hlevel canvas im); [done| |done].
  intros ->. done.
Qed.

(** ** The script around the class *)

Section ScriptFacts.

Import Folder.

Variable casefold : string -> string.
Variable json_dumps : Metadata.t -> string.
Variable tempdir : string.
Variable remote : list string -> string -> option Response.
Variable decode : bytes -> option Image.t.
Variable encode : string -> Image.t -> option bytes.

Abbreviation do_item_folder :=
  (Script.do_item_folder casefold json_dumps tempdir remote decode encode).
Abbreviation do_items :=
  (Script.do_items casefold json_dumps tempdir remote decode encode).
Abbreviation filtered_out := (Script.filtered_out casefold).

Lemma for_each_runs {A S} (P : S -> Prop) (l : list A) body s :
  (forall a s, a ∈ l -> P s -> exists s', body a s = Ok s' /\ P s') ->
  P s -> exists s', for_each l body s = Ok s' /\ P s'.
Proof.
  revert s. induction l as [|a l IH]; intros s Hb Hs; simpl; [by exists s|].
  destruct (Hb a s) as (s1 & -> & Hs1); [by left|done|]. simpl.
  apply IH; [|done]. intros b t Hin. apply Hb. by right.
Qed.

Lemma skipped_folder args widget_url metadata folder_name p :
  filtered_out args folder_name = true ->
  exists p',
    do_item_folder args widget_url metadata folder_name p = Ok p' /\
    disk p' = disk p /\
    stdout p' = stdout p ++
      (if Args.verbose args
       then ["Skipping " +:+ folder_name +:+ " because folder name filter"]
       else []).
Proof.
  intros Hf. unfold Script.do_item_folder. rewrite Hf.
  destruct (Args.verbose args); eexists; split; try done.
  by rewrite app_nil_r.
Qed.

(** X11: on a pyramid whose base is 1 x 1 (or less), with no [--level],
    [do_item_folder] raises [IndexError]: there is no level, and the
    default index is -1. *)
Theorem unit_pyramid_raises args widget_url metadata folder_name p :
  filtered_out args folder_name = false ->
  Args.level args = None ->
  - 2 ^ 53 <= Metadata.width metadata <= 1 ->
  - 2 ^ 53 <= Metadata.height metadata <= 1 ->
  do_item_folder args widget_url metadata folder_name p = Raised IndexError.
Proof.
  intros Hf Hl Hw Hh. unfold Script.do_item_folder. rewrite Hf, Hl.
  destruct (init_exact (widget_url +:+ folder_name) (Metadata.width metadata)
              (Metadata.height metadata) (Metadata.tileSize metadata)
              (Metadata.format metadata) (Args.forceDownload args))
    as (ls & -> & Hch); [lia..|].
  rewrite (halving_nil _ _ _ Hch) by lia. simpl.
  unfold download. simpl. done.
Qed.

Lemma join_tiles_ok_size self i folder w lvl im :
  index (levels self) i = Ok lvl ->
  join_tiles decode self i folder w = Ok im ->
  Image.size im = (width lvl, height lvl).
Proof.
  intros Hi. unfold join_tiles. rewrite Hi. simpl.
  destruct (truediv (width lvl) _) as [fc| |]; simpl; [|done..].
  destruct (truediv (height lvl) _) as [fr| |]; simpl; [|done..].
  unfold Image.new. simpl.
  destruct ((width lvl <? 0) || (height lvl <? 0)); simpl; [done|].
  intros Hj. by apply join_loops_size in Hj.
Qed.

Lemma log2_up_max a b : Z.max (Z.log2_up a) (Z.log2_up b) = Z.log2_up (Z.max a b).
Proof.
  destruct (Z.le_ge_cases a b) as [Hle|Hle].
  - pose proof (Z.log2_up_le_mono a b Hle). rewrite (Z.max_r a b) by done. lia.
  - pose proof (Z.log2_up_le_mono b a Hle). rewrite (Z.max_l a b) by done. lia.
Qed.

Lemma index_last {T} (l : list T) a :
  index l (Z.of_nat (length l) - 1) = Ok a -> last l = Some a.
Proof.
  intros Hi. destruct (decide (length l = 0%nat)) as [Hz|Hnz].
  - rewrite index_out_of_range in Hi by lia. done.
  - destruct (index_in_range l (Z.of_nat (length l) - 1)) as (a' & Hi' & Hl); [lia|].
    rewrite Hi in Hi'. injection Hi' as <-.
    destruct (Z.of_nat (length l) - 1 <? 0) eqn:E; [lia|].
    rewrite last_lookup.
    by replace (pred (length l)) with (Z.to_nat (Z.of_nat (length l) - 1)) by lia.
Qed.

(** X12: with no [--level], a run of [do_item_folder] that returns, on a
    base of 1 to 2^53 each way, has written to
    [out/<name>_LVL<n-1>.<format>], [n] being [log2_up (max W H)], the
    encoding of an image of exactly the base size. *)
Theorem default_level_is_full_size args widget_url metadata folder_name p p' :
  filtered_out args folder_name = false ->
  Args.level args = None ->
  1 <= Metadata.width metadata <= 2 ^ 53 ->
  1 <= Metadata.height metadata <= 2 ^ 53 ->
  do_item_folder args widget_url metadata folder_name p = Ok p' ->
  exists im blob,
    Image.size im = (Metadata.width metadata, Metadata.height metadata) /\
    let out :=
      Os.path_join (Args.out args)
        (Script.out_file_name folder_name
           (Z.log2_up (Z.max (Metadata.width metadata) (Metadata.height metadata)) - 1)
         +:+ "." +:+ default (Metadata.format metadata) (Args.format args)) in
    encode out im = Some blob /\ files (disk p') !! out = Some blob.
Proof.
  intros Hf Hl Hw Hh. unfold Script.do_item_folder. rewrite Hf, Hl.
  destruct (init_exact (widget_url +:+ folder_name) (Metadata.width metadata)
              (Metadata.height metadata) (Metadata.tileSize metadata)
              (Metadata.format metadata) (Args.forceDownload args))
    as (ls & -> & Hch); [lia..|].
  simpl. rewrite length_reverse.
  pose proof (halving_length (Metadata.width metadata) (Metadata.height metadata)
                ls ltac:(lia) ltac:(lia) Hch) as Hlen.
  rewrite log2_up_max in Hlen. rewrite Hlen.
  set (n1 := Z.log2_up (Z.max (Metadata.width metadata) (Metadata.height metadata)) - 1).
  set (folder := {| path := widget_url +:+ folder_name;
                    tile_size := Metadata.tileSize metadata;
                    format := Metadata.format metadata;
                    force_download := Args.forceDownload args;
                    levels := reverse ls |}).
  destruct (download remote folder n1 _ _) as [w1| |] eqn:Hd; simpl; [|done..].
  destruct (join_tiles decode folder n1 _ w1) as [im| |] eqn:Hj; simpl; [|done..].
  unfold Script.image_save.
  destruct (encode _ im) as [blob|] eqn:He; simpl; [|done].
  intros Hp'. exists im, blob. split.
  - assert (exists lvl, index (levels folder) n1 = Ok lvl) as [lvl Hi].
    { pose proof Hj as Hj'. unfold join_tiles in Hj'.
      destruct (index (levels folder) n1) as [lvl| |]; [by exists lvl|done..]. }
    assert (lvl = Level (Metadata.width metadata) (Metadata.height metadata)) as Hlvl.
    { subst n1. rewrite <- Hlen in Hi.
      replace (length ls) with (length (levels folder)) in Hi
        by (simpl; apply length_reverse).
      apply index_last in Hi. simpl in Hi. rewrite last_reverse in Hi.
      destruct ls as [|l ls]; [done|]. destruct Hch as (_ & -> & _).
      by injection Hi as <-. }
    eapply join_tiles_ok_size in Hj; [|exact Hi]. by rewrite Hj, Hlvl.
  - cbv zeta. split; [done|].
    destruct (Args.verbose args); injection Hp' as <-; simpl;
      by rewrite lookup_insert_eq.
Qed.

(** X13: when [--name] matches none of the folders of the scene, the whole
    loop over the items returns without a request or a file written. *)
Theorem nothing_selected_nothing_done args widget_url items p :
  (forall metadata folders folder_name,
     Pages metadata folders ∈ items -> folder_name ∈ folders ->
     filtered_out args folder_name = true) ->
  (forall metadata folder_name,
     Single metadata folder_name ∈ items ->
     filtered_out args folder_name = true) ->
  exists p', do_items args widget_url items p = Ok p' /\ disk p' = disk p.
Proof.
  intros Hpages Hsingle. unfold Script.do_items.
  apply (for_each_runs (fun q => disk q = disk p)); [|done].
  intros [metadata folders|metadata folder_name] q Hin Hq.
  - apply (for_each_runs (fun q => disk q = disk p)); [|done].
    intros folder_name t Hf Ht.
    destruct (skipped_folder args widget_url metadata folder_name t)
      as (t' & Hrun & Hdisk & _); [by apply (Hpages metadata folders)|].
    exists t'. split; [done|]. congruence.
  - destruct (skipped_folder args widget_url metadata folder_name q)
      as (q' & Hrun & Hdisk & _); [by apply (Hsingle metadata)|].
    exists q'. split; [done|]. congruence.
Qed.

End ScriptFacts.

(** ** Tile names *)

Section Names.

Import Folder.

Lemma occurs_app c s1 s2 : occurs c (s1 +:+ s2) = occurs c s1 || occurs c s2.
Proof.
  induction s1 as [|ch s1 IH]; simpl; [done|]. by rewrite IH, orb_assoc.
Qed.

Lemma pretty_N_go_occurs c x s :
  (forall d, pretty_N_char d <> c) ->
  occurs c s = false -> occurs c (pretty_N_go x s) = false.
Proof.
  intros Hc. revert s. induction (N.lt_wf_0 x) as [x _ IH]; intros s Hs.
  assert (x = 0 \/ 0 < x)%N as [->|Hx] by lia.
  - by rewrite pretty_N_go_0.
  - rewrite pretty_N_go_step by done. apply IH; [by apply N.div_lt|].
    simpl. rewrite Hs, orb_false_r. apply bool_decide_eq_false. apply Hc.
Qed.

Lemma str_occurs c n :
  (forall d, pretty_N_char d <> c) -> c <> "-"%char -> c <> "0"%char ->
  occurs c (Os.str n) = false.
Proof.
  intros Hc Hdash Hzero. unfold Os.str, pretty, pretty_Z.
  assert (forall p : positive, occurs c (pretty p) = false) as Hpos.
  { intros p. unfold pretty, pretty_positive, pretty, pretty_N.
    destruct (decide (N.pos p = 0%N)); [done|]. by apply pretty_N_go_occurs. }
  destruct n as [|p|p].
  - simpl. rewrite orb_false_r. apply bool_decide_eq_false. congruence.
  - apply Hpos.
  - rewrite occurs_app, Hpos, orb_false_r. simpl. rewrite orb_false_r.
    apply bool_decide_eq_false. congruence.
Qed.

Lemma no_digit_underscore d : pretty_N_char d <> "_"%char.
Proof. unfold pretty_N_char. by repeat case_match. Qed.

Lemma no_digit_dot d : pretty_N_char d <> "."%char.
Proof. unfold pretty_N_char. by repeat case_match. Qed.

Lemma no_digit_slash d : pretty_N_char d <> "/"%char.
Proof. unfold pretty_N_char. by repeat case_match. Qed.

(** A string is cut in one way only at the first occurrence of [c]. *)
Lemma cut_unique c a a' b b' :
  occurs c a = false -> occurs c a' = false ->
  a +:+ String c b = a' +:+ String c b' -> a = a' /\ b = b'.
Proof.
  revert a'. induction a as [|ch a IH]; intros [|ch' a'] Ha Ha' Heq; simpl in *.
  - by injection Heq as ->.
  - injection Heq as <- _. apply orb_false_iff in Ha' as [Hc _].
    by apply bool_decide_eq_false in Hc.
  - injection Heq as -> _. apply orb_false_iff in Ha as [Hc _].
    by apply bool_decide_eq_false in Hc.
  - injection Heq as -> Heq.
    apply orb_false_iff in Ha as [_ Ha]. apply orb_false_iff in Ha' as [_ Ha'].
    destruct (IH a' Ha Ha' Heq) as [-> ->]. done.
Qed.

Lemma tile_name_inj fmt x y x' y' :
  Os.str x +:+ "_" +:+ Os.str y +:+ "." +:+ fmt =
  Os.str x' +:+ "_" +:+ Os.str y' +:+ "." +:+ fmt ->
  x = x' /\ y = y'.
Proof.
  intros Heq.
  apply (cut_unique "_") in Heq as [Hx Heq];
    [|by apply str_occurs; [apply no_digit_underscore|..]..].
  apply (cut_unique ".") in Heq as [Hy _];
    [|by apply str_occurs; [apply no_digit_dot|..]..].
  split; by apply (inj pretty).
Qed.

Lemma tile_name_relative fmt x y :
  Os.starts_with_sep (Os.str x +:+ "_" +:+ Os.str y +:+ "." +:+ fmt) = false.
Proof.
  pose proof (str_occurs "/" x no_digit_slash ltac:(done) ltac:(done)) as Hx.
  destruct (Os.str x) as [|ch s]; simpl in *; [done|].
  by apply orb_false_iff in Hx as [-> _].
Qed.

Lemma tile_path_inj self folder x y x' y' :
  tile_path self folder x y = tile_path self folder x' y' -> x = x' /\ y = y'.
Proof.
  unfold tile_path, Os.path_join. rewrite !tile_name_relative.
  destruct (_ || _); intros Heq.
  - apply (inj (String.app folder)) in Heq. by apply tile_name_inj in Heq.
  - apply (inj (String.app folder)) in Heq. injection Heq as Heq.
    by apply tile_name_inj in Heq.
Qed.

(** X14: two tiles of a level never share a cache file or a url: the
    path and the url of a tile determine its column and row. *)
Theorem tile_names_distinct self i folder x y x' y' :
  (tile_path self folder x y = tile_path self folder x' y' -> x = x' /\ y = y') /\
  (tile_url self i x y = tile_url self i x' y' -> x = x' /\ y = y').
Proof.
  split; [apply tile_path_inj|].
  - unfold tile_url. intros Heq.
    apply (inj (String.app (path self))) in Heq. injection Heq as Heq.
    apply (inj (String.app (Os.str (i + 1)))) in Heq. injection Heq as Heq.
    by apply tile_name_inj in Heq.
Qed.

End Names.

(** ** A first download *)

Section ColdCache.

Import Folder.

Variable remote : list string -> string -> option Response.

Lemma for_each_app {A S} (l1 l2 : list A) (body : A -> S -> result S) s :
  for_each (l1 ++ l2) body s = for_each l1 body s ≫= for_each l2 body.
Proof.
  revert s. induction l1 as [|a l1 IH]; intros s; simpl; [done|].
  destruct (body a s); simpl; [apply IH|done..].
Qed.

Lemma for_each_row {S} (x : Z) (ly : list Z) (body : Z -> Z -> S -> result S) t :
  for_each (y ← ly; [(x, y)]) (fun a => body a.1 a.2) t =
  for_each ly (fun y => body x y) t.
Proof.
  revert t. induction ly as [|y ly IHy]; intros t; [done|].
  rewrite bind_cons. simpl. destruct (body x y t); simpl; [apply IHy|done..].
Qed.

Lemma for_each_flatten {S} (lx ly : list Z) (body : Z -> Z -> S -> result S) s :
  for_each lx (fun x => for_each ly (fun y => body x y)) s =
  for_each (x ← lx; y ← ly; [(x, y)]) (fun a => body a.1 a.2) s.
Proof.
  revert s. induction lx as [|x lx IH]; intros s; [done|].
  rewrite bind_cons, for_each_app, for_each_row. simpl.
  destruct (for_each ly _ s); simpl; [apply IH|done..].
Qed.

Lemma NoDup_addresses c r : NoDup (addresses c r).
Proof.
  assert (forall n, NoDup (range n)) as Hrange.
  { intros n. unfold range. apply NoDup_fmap_2; [apply Nat2Z.inj'|apply NoDup_seq]. }
  unfold addresses. apply NoDup_bind; [| |apply Hrange].
  - intros x1 x2 a _ _ H1 H2.
    apply list_elem_of_bind in H1 as (y1 & H1 & _).
    apply list_elem_of_bind in H2 as (y2 & H2 & _).
    apply list_elem_of_singleton in H1, H2. congruence.
  - intros x _. apply NoDup_bind; [| |apply Hrange].
    + intros y1 y2 a _ _ H1 H2.
      apply list_elem_of_singleton in H1, H2. congruence.
    + intros y _. apply NoDup_singleton.
Qed.

Lemma cold_run self i folder (l : list (Z * Z)) w w' :
  force_download self = false ->
  NoDup l ->
  (forall a, a ∈ l -> files w !! tile_path self folder a.1 a.2 = None) ->
  for_each l (fun a => download_tile remote self i folder a.1 a.2) w = Ok w' ->
  requests w' = requests w ++ ((fun a => tile_url self i a.1 a.2) <$> l).
Proof.
  intros Hf. revert w. induction l as [|a l IH]; intros w Hnd Hnone Hrun.
  - injection Hrun as <-. by rewrite app_nil_r.
  - simpl in Hrun.
    destruct (download_tile _ _ _ _ _ _ w) as [w1| |] eqn:E; simpl in Hrun; [|done..].
    apply NoDup_cons in Hnd as [Hnotin Hnd].
    apply download_tile_steps in E as [(_ & _ & Hsome)|(_ & rsp & ->)].
    { rewrite Hnone in Hsome by (by left). by destruct Hsome. }
    rewrite (IH _ Hnd) with (2 := Hrun).
    + simpl. by rewrite <- app_assoc.
    + intros b Hb. simpl. rewrite lookup_insert_ne; [apply Hnone; by right|].
      intros Heq. apply tile_path_inj in Heq as [H1 H2].
      destruct a, b. simpl in *. subst. done.
Qed.

(** X15: a [download] without [force_download] that finds none of the
    level's tiles in the cache directory requests every tile of the grid,
    once each, in the order of the loops. *)
Theorem first_download_fetches_all self i folder lvl c r w w' :
  force_download self = false ->
  index (levels self) i = Ok lvl ->
  grid self lvl = Ok (c, r) ->
  (forall x y, (x, y) ∈ addresses c r ->
     files w !! tile_path self folder x y = None) ->
  download remote self i folder w = Ok w' ->
  requests w' =
    requests w ++ ((fun a => tile_url self i a.1 a.2) <$> addresses c r).
Proof.
  intros Hf Hi Hg Hnone. unfold download. rewrite Hi. simpl.
  unfold grid in Hg.
  destruct (truediv (width lvl) _) as [fc| |]; simpl in *; [|done..].
  destruct (truediv (height lvl) _) as [fr| |]; simpl in *; [|done..].
  injection Hg as <- <-. rewrite for_each_flatten. intros Hrun.
  apply (cold_run self i folder _ w w' Hf (NoDup_addresses _ _)); [|done].
  intros [x y] Hin. by apply Hnone.
Qed.

End ColdCache.

(** ** The further properties at work on the small pyramid *)

Section MoreInstances.

Import Folder.

Abbreviation demo_item_folder :=
  (Script.do_item_folder Demo2.lower Demo2.json_dumps "/tmp" Demo.host
     Demo.decoder Demo2.encoder).

Lemma init_overflows_witness :
  __init__ "http://host/scene/page_files" (2 ^ 1024) 1 512 "jpg" false
    = Raised OverflowError.
Proof.
  apply (init_overflows "http://host/scene/page_files" (2 ^ 1024) 1 512 "jpg" false).
  left. lia.
Defined.

Lemma levels_count_witness :
  exists self,
    __init__ "http://host/scene/page_files" 1000 600 512 "jpg" false = Ok self /\
    Z.of_nat (length (levels self)) = Z.log2_up (Z.max 1000 600).
Proof.
  apply (levels_count "http://host/scene/page_files" 1000 600 512 "jpg" false); lia.
Defined.

Lemma levels_closed_form_witness :
  exists self,
    __init__ "http://host/scene/page_files" 1000 600 512 "jpg" false = Ok self /\
    forall (i : nat) a,
      levels self !! i = Some a ->
      a = Level (ceil_div 1000 (2 ^ (Z.of_nat (length (levels self)) - 1 - Z.of_nat i)))
                (ceil_div 600 (2 ^ (Z.of_nat (length (levels self)) - 1 - Z.of_nat i))).
Proof.
  apply (levels_closed_form "http://host/scene/page_files" 1000 600 512 "jpg" false);
    lia.
Defined.

Lemma download_rerun_noop_witness :
  exists w',
    download Demo.host Demo.folder 1 Demo.cache Demo.empty_world = Ok w' /\
    download Demo.host Demo.folder 1 Demo.cache w' = Ok w'.
Proof.
  eexists. split; [vm_compute; reflexivity|].
  apply (download_rerun_noop Demo.host Demo.folder 1 Demo.cache Demo.empty_world);
    [reflexivity|vm_compute; reflexivity].
Defined.

Lemma download_frame_witness :
  exists w',
    download Demo.host Demo.forced 1 Demo.cache Demo.cached_world = Ok w' /\
    exists lvl c r,
      index (levels Demo.forced) 1 = Ok lvl /\ grid Demo.forced lvl = Ok (c, r) /\
      forall p,
        files w' !! p = files Demo.cached_world !! p \/
        exists x y, (x, y) ∈ addresses c r /\
                    p = tile_path Demo.forced Demo.cache x y /\
                    (force_download Demo.forced = false ->
                     files Demo.cached_world !! p = None).
Proof.
  eexists. split; [vm_compute; reflexivity|].
  apply (download_frame Demo.host Demo.forced 1 Demo.cache Demo.cached_world).
  vm_compute. reflexivity.
Defined.

Lemma download_requests_witness :
  exists w',
    download Demo.host Demo.forced 1 Demo.cache Demo.cached_world = Ok w' /\
    exists lvl c r sent,
      index (levels Demo.forced) 1 = Ok lvl /\ grid Demo.forced lvl = Ok (c, r) /\
      sent `sublist_of` addresses c r /\
      requests w' = requests Demo.cached_world ++
                    ((fun a => tile_url Demo.forced 1 a.1 a.2) <$> sent) /\
      (force_download Demo.forced = true -> sent = addresses c r).
Proof.
  eexists. split; [vm_compute; reflexivity|].
  apply (download_requests Demo.host Demo.forced 1 Demo.cache Demo.cached_world).
  vm_compute. reflexivity.
Defined.

Lemma join_tiles_needs_every_tile_witness :
  exists im,
    join_tiles Demo.decoder Demo.folder 1 Demo.cache Demo.cached_world = Ok im /\
    exists lvl c r,
      index (levels Demo.folder) 1 = Ok lvl /\ grid Demo.folder lvl = Ok (c, r) /\
      forall x y, (x, y) ∈ addresses c r ->
        exists blob src,
          files Demo.cached_world !! tile_path Demo.folder Demo.cache x y = Some blob /\
          Demo.decoder blob = Some src.
Proof.
  eexists. split; [vm_compute; reflexivity|].
  eapply (join_tiles_needs_every_tile Demo.decoder Demo.folder 1 Demo.cache
            Demo.cached_world).
  vm_compute. reflexivity.
Defined.

Lemma demo_tiles_cached x y :
  (x, y) ∈ addresses 2 1 ->
  exists blob,
    files Demo.cached_world !! tile_path Demo.folder Demo.cache x y = Some blob /\
    Demo.decoder blob = Some Demo2.white_tile.
Proof.
  intros Hin. apply elem_of_addresses in Hin.
  assert ((x = 0 \/ x = 1) /\ y = 0) as [[-> | ->] ->] by lia;
    eexists; split; reflexivity.
Qed.

Lemma join_tiles_pixels_witness :
  exists im,
    join_tiles Demo.decoder Demo.folder 1 Demo.cache Demo.cached_world = Ok im /\
    forall x y px py,
      (x, y) ∈ addresses 2 1 ->
      0 <= px < 2 /\ 0 <= py < 2 ->
      x * 2 + px < 3 /\ y * 2 + py < 2 ->
      Image.getpixel im (x * 2 + px) (y * 2 + py) =
        if (px <? 2) && (py <? 2) then (255, 255, 255) else (0, 0, 0).
Proof.
  apply (join_tiles_pixels Demo.decoder Demo.folder 1 Demo.cache Demo.cached_world
           (Level 3 2) 2 1 (fun _ _ => Demo2.white_tile));
    [simpl; lia|reflexivity|reflexivity|simpl; lia|simpl; lia| |].
  - apply demo_tiles_cached.
  - intros x y _. simpl. lia.
Defined.

Lemma unit_pyramid_raises_witness :
  demo_item_folder Demo2.args "http://host/scene/" Demo2.unit_metadata
    "page_files" Demo2.start = Raised IndexError.
Proof.
  apply (unit_pyramid_raises Demo2.lower Demo2.json_dumps "/tmp" Demo.host
           Demo.decoder Demo2.encoder Demo2.args "http://host/scene/"
           Demo2.unit_metadata "page_files" Demo2.start);
    [reflexivity|reflexivity|simpl; lia|simpl; lia].
Defined.

Lemma default_level_is_full_size_witness :
  exists p',
    demo_item_folder Demo2.args "http://host/scene/" Demo2.metadata
      "page_files" Demo2.start = Ok p' /\
    exists im blob,
      Image.size im = (3, 2) /\
      Demo2.encoder "/out/page_LVL1.jpg" im = Some blob /\
      files (disk p') !! "/out/page_LVL1.jpg" = Some blob.
Proof.
  eexists. split; [vm_compute; reflexivity|].
  apply (default_level_is_full_size Demo2.lower Demo2.json_dumps "/tmp" Demo.host
           Demo.decoder Demo2.encoder Demo2.args "http://host/scene/"
           Demo2.metadata "page_files" Demo2.start);
    [reflexivity|reflexivity|simpl; lia|simpl; lia|vm_compute; reflexivity].
Defined.

Lemma nothing_selected_nothing_done_witness :
  exists p',
    Script.do_items Demo2.lower Demo2.json_dumps "/tmp" Demo.host Demo.decoder
      Demo2.encoder (Demo2.named "x") "http://host/scene/" Demo2.items
      Demo2.start = Ok p' /\
    disk p' = disk Demo2.start.
Proof.
  apply (nothing_selected_nothing_done Demo2.lower Demo2.json_dumps "/tmp"
           Demo.host Demo.decoder Demo2.encoder (Demo2.named "x")
           "http://host/scene/" Demo2.items Demo2.start).
  - intros metadata folders folder_name Hin Hf. unfold Demo2.items in Hin.
    apply elem_of_cons in Hin as [Hin|Hin].
    + injection Hin as -> ->.
      apply elem_of_cons in Hf as [->|Hf]; [reflexivity|].
      apply list_elem_of_singleton in Hf as ->. reflexivity.
    + apply list_elem_of_singleton in Hin. discriminate.
  - intros metadata folder_name Hin. unfold Demo2.items in Hin.
    apply elem_of_cons in Hin as [Hin|Hin]; [discriminate|].
    apply list_elem_of_singleton in Hin. injection Hin as -> ->. reflexivity.
Defined.

Lemma first_download_fetches_all_witness :
  exists w',
    download Demo.host Demo.folder 1 Demo.cache Demo.empty_world = Ok w' /\
    requests w' =
      requests Demo.empty_world ++
      ((fun a => tile_url Demo.folder 1 a.1 a.2) <$> addresses 2 1).
Proof.
  eexists. split; [vm_compute; reflexivity|].
  apply (first_download_fetches_all Demo.host Demo.folder 1 Demo.cache
           (Level 3 2) 2 1 Demo.empty_world);
    [reflexivity|reflexivity|reflexivity| |vm_compute; reflexivity].
  intros x y _. apply lookup_empty.
Defined.

End MoreInstances.
